(** * Geometric line reconstruction and page orchestration of
      [extraction_text.py]

    The development embeds the three functions of the module,
    [get_directional_distances], [extract_structured_text] and
    [extract_text_from_pdf], and states the properties of the word grouping
    and of the page assembly over them.

    Modelling choices.
    - Coordinates and the threshold are exact rationals ([Q]);
      [float('inf')] is the extra point [Inf] of [dist]. Rounding and NaN
      are outside the model.
    - [processed] is a finite set of indices ([gset nat]).
    - [sorted] is a stable insertion sort driven by the strict order of the
      keys, which is what Python's [sorted] computes on a total preorder.
    - The [while True] loop carries a fuel argument; [None] means the fuel
      ran out, and [extract_structured_text_total] shows that this never
      happens with the fuel the entry point supplies.
    - The collaborator's calls, [pdfplumber.open], [page.extract_text] and
      [page.extract_words], return or raise ([outcome]); a [page] is the
      pair of values the two page calls returned, a [pdf_page] says what
      the two calls do. The [print] of the entry point is left out.
    - Text is [string], read as a sequence of code points below 256. *)

From Stdlib Require Import QArith Qabs String Ascii List Permutation Sorted
  DecimalFacts DecimalNat DecimalString.
From stdpp Require Import base gmap sets list strings.

Local Open Scope Q_scope.

(** ** Numbers *)

Definition Qltb (a b : Q) : bool := negb (Qle_bool b a).

(** A running minimum: a finite distance or [float('inf')]. *)
Inductive dist : Type :=
| Fin (q : Q)
| Inf.

Definition dist_ltb (a b : dist) : bool :=
  match a, b with
  | Fin x, Fin y => Qltb x y
  | Fin _, Inf => true
  | Inf, _ => false
  end.

(** Python's [min(a, b)]: [b] when [b < a], else [a]. *)
Definition dist_min (a b : dist) : dist :=
  if dist_ltb b a then b else a.

(** [d > threshold]. *)
Definition dist_gtb (d : dist) (threshold : Q) : bool :=
  dist_ltb (Fin threshold) d.

(** ** Word boxes *)

Record word : Type := Word {
  x0 : Q;
  x1 : Q;
  top : Q;
  bottom : Q;
  text : string
}.

Definition get_directional_distances (word1 word2 : word) : Q * Q :=
  let xc1 := (x0 word1 + x1 word1) / 2 in
  let yc1 := (top word1 + bottom word1) / 2 in
  let xc2 := (x0 word2 + x1 word2) / 2 in
  let yc2 := (top word2 + bottom word2) / 2 in
  let horizontal_dist := Qabs (xc2 - xc1) in
  let vertical_dist := Qabs (yc2 - yc1) in
  (horizontal_dist, vertical_dist).

Arguments get_directional_distances : simpl never.

(** ** [sorted(l, key=...)] *)

Section Sorting.
Context {A K : Type} (key : A -> K) (ltb : K -> K -> bool).

(** [x] stood before every element of [l] in the input: it goes behind
    the elements with a strictly smaller key only. *)
Fixpoint sorted_insert (x : A) (l : list A) : list A :=
  match l with
  | [] => [x]
  | y :: l' =>
      if ltb (key y) (key x) then y :: sorted_insert x l'
      else x :: y :: l'
  end.

Fixpoint sorted (l : list A) : list A :=
  match l with
  | [] => []
  | x :: l' => sorted_insert x (sorted l')
  end.
End Sorting.

(** Order of the tuples [(top, x0)]: first components decide unless they
    are equal. *)
Definition pair_ltb (a b : Q * Q) : bool :=
  Qltb (fst a) (fst b) || (Qeq_bool (fst a) (fst b) && Qltb (snd a) (snd b)).

Definition key_top_x0 (w : word) : Q * Q := (top w, x0 w).

Definition sort_reading_order (words : list word) : list word :=
  sorted key_top_x0 pair_ltb words.

Definition sort_by_x0 (group : list word) : list word :=
  sorted x0 Qltb group.

(** ** [enumerate] *)

Fixpoint enumerate_from {A : Type} (n : nat) (l : list A) : list (nat * A) :=
  match l with
  | [] => []
  | x :: l' => (n, x) :: enumerate_from (S n) l'
  end.

Definition enumerate {A : Type} (l : list A) : list (nat * A) :=
  enumerate_from 0 l.

(** ** The neighbour scan (the inner [for j, other_word] loop) *)

Record scan_state : Type := ScanState {
  closest_word : option word;
  min_horizontal_dist : dist;
  min_vertical_dist : dist;
  closest_idx : option nat;
  is_horizontal : bool
}.

Definition scan_init : scan_state :=
  {| closest_word := None;
     min_horizontal_dist := Inf;
     min_vertical_dist := Inf;
     closest_idx := None;
     is_horizontal := true |}.

(** The two assignments blocks of the scan. *)
Definition record_horizontal (st : scan_state) (j : nat) (other_word : word)
    (h_dist : Q) : scan_state :=
  {| closest_word := Some other_word;
     min_horizontal_dist := Fin h_dist;
     min_vertical_dist := min_vertical_dist st;
     closest_idx := Some j;
     is_horizontal := true |}.

Definition record_vertical (st : scan_state) (j : nat) (other_word : word)
    (v_dist : Q) : scan_state :=
  {| closest_word := Some other_word;
     min_horizontal_dist := min_horizontal_dist st;
     min_vertical_dist := Fin v_dist;
     closest_idx := Some j;
     is_horizontal := false |}.

(** The [if]/[elif] chain on distances already computed. *)
Definition classify (st : scan_state) (j : nat) (other_word : word)
    (h_dist v_dist : Q) : scan_state :=
  if Qltb h_dist v_dist && dist_ltb (Fin h_dist) (min_horizontal_dist st)
  then record_horizontal st j other_word h_dist
  else if dist_ltb (Fin v_dist) (min_vertical_dist st)
  then record_vertical st j other_word v_dist
  else st.

Definition scan_step (processed : gset nat) (current_word : word)
    (st : scan_state) (jw : nat * word) : scan_state :=
  let '(j, other_word) := jw in
  if bool_decide (j ∈ processed) then st
  else
    let '(h_dist, v_dist) :=
      get_directional_distances current_word other_word in
    classify st j other_word h_dist v_dist.

Definition scan (words : list word) (processed : gset nat)
    (current_word : word) : scan_state :=
  fold_left (scan_step processed current_word) (enumerate words) scan_init.

(** ** The extension loop ([while True]) *)

(** [processed.add(closest_idx)]. *)
Definition add_idx (closest_idx : option nat) (processed : gset nat)
    : gset nat :=
  match closest_idx with
  | Some j => {[ j ]} ∪ processed
  | None => processed
  end.

(** The code after the loop: [if current_group: ... groups.append(...)]. *)
Definition finalize (current_group : list word) (groups : list (list word))
    : list (list word) :=
  match current_group with
  | [] => groups
  | _ :: _ => groups ++ [sort_by_x0 current_group]
  end.

Fixpoint extend_group (fuel : nat) (words : list word) (threshold : Q)
    (current_word : word) (current_group : list word)
    (processed : gset nat) (groups : list (list word))
    : option (list (list word) * gset nat) :=
  match fuel with
  | O => None
  | S fuel' =>
      let st := scan words processed current_word in
      match closest_word st with
      | None => Some (finalize current_group groups, processed)
      | Some cw =>
          if dist_gtb (dist_min (min_horizontal_dist st)
                                (min_vertical_dist st)) threshold
          then Some (finalize current_group groups, processed)
          else
            let processed' := add_idx (closest_idx st) processed in
            if is_horizontal st
            then extend_group fuel' words threshold cw
                   (current_group ++ [cw]) processed' groups
            else extend_group fuel' words threshold cw
                   [cw] processed' (groups ++ [sort_by_x0 current_group])
      end
  end.

(** ** The outer loop ([for i, current_word in enumerate(words)]) *)

Fixpoint group_loop (fuel : nat) (words : list word) (threshold : Q)
    (todo : list (nat * word)) (processed : gset nat)
    (groups : list (list word)) : option (list (list word)) :=
  match todo with
  | [] => Some groups
  | (i, current_word) :: todo' =>
      if bool_decide (i ∈ processed)
      then group_loop fuel words threshold todo' processed groups
      else
        match extend_group fuel words threshold current_word
                [current_word] ({[ i ]} ∪ processed) groups with
        | None => None
        | Some (groups', processed') =>
            group_loop fuel words threshold todo' processed' groups'
        end
  end.

(** A page as the collaborator hands it over: the values returned by
    [page.extract_text(keep_blank_chars=True)] and by
    [page.extract_words(x_tolerance=2, y_tolerance=2, keep_blank_chars=True)]. *)
Record page : Type := Page {
  extract_text : option string;
  extract_words : list word
}.

Definition extract_structured_text (p : page) (threshold : Q)
    : option (list (list word)) :=
  let words := extract_words p in
  match words with
  | [] => Some []
  | _ :: _ =>
      let words := sort_reading_order words in
      group_loop (S (length words)) words threshold (enumerate words) ∅ []
  end.

Definition default_threshold : Q := 15.

(** ** Text *)

(** ["\n"]. *)
Definition newline : ascii := "010"%char.
Definition nl : string := String newline EmptyString.

(** [str.isspace] on one code point below 256: tab to carriage return,
    the four separators 28 to 31, the space, NEL (133) and the no-break
    space (160). *)
Definition isspace (c : ascii) : bool :=
  let n := nat_of_ascii c in
  ((9 <=? n)%nat && (n <=? 13)%nat) || ((28 <=? n)%nat && (n <=? 32)%nat)
  || (n =? 133)%nat || (n =? 160)%nat.

Fixpoint lstrip (s : string) : string :=
  match s with
  | EmptyString => EmptyString
  | String c s' => if isspace c then lstrip s' else s
  end.

Fixpoint rstrip (s : string) : string :=
  match s with
  | EmptyString => EmptyString
  | String c s' =>
      match rstrip s' with
      | EmptyString => if isspace c then EmptyString else String c EmptyString
      | String _ _ as r => String c r
      end
  end.

(** [s.strip()]. *)
Definition strip (s : string) : string := rstrip (lstrip s).

(** Truth value of a string: non-empty. *)
Definition nonempty (s : string) : bool :=
  match s with
  | EmptyString => false
  | String _ _ => true
  end.

(** [sep.join(l)]. *)
Fixpoint join (sep : string) (l : list string) : string :=
  match l with
  | [] => EmptyString
  | [x] => x
  | x :: (_ :: _) as l' => x +:+ sep +:+ join sep l'
  end.

(** [str(n)] for a natural number. *)
Definition str_of_nat (n : nat) : string :=
  NilEmpty.string_of_uint (Nat.to_uint n).

(** ** The page extraction orchestrator *)

(** ["--- Page {i+1} ---"], the header line of the page of index [i]. *)
Definition header_line (i : nat) : string :=
  "--- Page " +:+ str_of_nat (i + 1) +:+ " ---".

(** [text and len(text.strip()) > 0], for [text] a string or [None]. *)
Definition has_native_text (text : option string) : bool :=
  match text with
  | None => false
  | Some t => nonempty t && (0 <? String.length (strip t))%nat
  end.

(** The body of [for idx, group in enumerate(groups)]. *)
Definition append_group (full_text : string) (group : list word) : string :=
  let group_text := strip (join " " (List.map text group)) in
  if nonempty group_text then full_text +:+ group_text +:+ nl
  else full_text.

(** The [else] branch of a page, once the groups are known. *)
Definition fallback_section (full_text : string) (i : nat)
    (groups : list (list word)) : string :=
  match groups with
  | _ :: _ =>
      fold_left append_group groups
        (full_text +:+ nl +:+ header_line i +:+ nl)
  | [] =>
      full_text +:+ nl +:+ header_line i +:+ nl +:+ "[No text found]" +:+ nl
  end.

(** What a call does: it returns or it raises. Of a raised exception
    the handlers look at the class only, and at [str(e)]: a
    [FileNotFoundError], another exception of class [Exception], or an
    exception outside that class ([KeyboardInterrupt], [SystemExit]),
    which no handler of the module catches. *)
Inductive exn : Type :=
| FileNotFoundError
| OtherException (str_e : string)
| NotAnException.

Inductive outcome (A : Type) : Type :=
| Returns (a : A)
| Raises (e : exn).
Arguments Returns {A} a.
Arguments Raises {A} e.

(** A page object of the collaborator: what
    [page.extract_text(keep_blank_chars=True)] and
    [page.extract_words(x_tolerance=2, y_tolerance=2, keep_blank_chars=True)]
    do when they are called. *)
Record pdf_page : Type := PdfPage {
  call_extract_text : outcome (option string);
  call_extract_words : outcome (list word)
}.

(** The body of [for i, page in enumerate(pdf.pages)]: the new value of
    [full_text], or the exception that leaves the loop. The call of
    [page.extract_words] is the first statement of
    [extract_structured_text(page)]; the grouping then runs on the values
    the two calls returned. *)
Definition process_page (full_text : string) (i : nat) (p : pdf_page)
    : option (outcome string) :=
  match call_extract_text p with
  | Raises e => Some (Raises e)
  | Returns text =>
      if has_native_text text
      then Some (Returns (full_text +:+ nl +:+ header_line i +:+ nl
                            +:+ strip (default EmptyString text) +:+ nl))
      else
        match call_extract_words p with
        | Raises e => Some (Raises e)
        | Returns words =>
            groups ← extract_structured_text (Page text words)
                       default_threshold;
            Some (Returns (fallback_section full_text i groups))
        end
  end.

Fixpoint pages_loop (todo : list (nat * pdf_page)) (full_text : string)
    : option (outcome string) :=
  match todo with
  | [] => Some (Returns full_text)
  | (i, p) :: todo' =>
      r ← process_page full_text i p;
      match r with
      | Raises e => Some (Raises e)
      | Returns full_text' => pages_loop todo' full_text'
      end
  end.

Definition file_not_found_message : string :=
  "Error: The file was not found. Please provide the correct file path.".

Section Orchestrator.
(** [pdfplumber.open(pdf_path)], followed by [pdf.pages]. *)
Variable pdfplumber_open : string -> outcome (list pdf_page).

(** The [try] block: its return value, or the exception that leaves
    it. *)
Definition try_block (pdf_path : string) : option (outcome string) :=
  match pdfplumber_open pdf_path with
  | Raises e => Some (Raises e)
  | Returns pages =>
      r ← pages_loop (enumerate pages) EmptyString;
      match r with
      | Raises e => Some (Raises e)
      | Returns full_text => Some (Returns (strip full_text))
      end
  end.

(** The [try] block under its two handlers: [except FileNotFoundError],
    then [except Exception as e]; any other exception goes on to the
    caller. *)
Definition extract_text_from_pdf (pdf_path : string)
    : option (outcome string) :=
  r ← try_block pdf_path;
  match r with
  | Returns s => Some (Returns s)
  | Raises FileNotFoundError => Some (Returns file_not_found_message)
  | Raises (OtherException str_e) =>
      Some (Returns ("Error: An unexpected issue occurred: " +:+ str_e))
  | Raises NotAnException => Some (Raises NotAnException)
  end.
End Orchestrator.

(** ** Reading the headers back from the output *)

(** [s.split("\n")]. *)
Fixpoint lines (s : string) : list string :=
  match s with
  | EmptyString => [EmptyString]
  | String c s' =>
      if Ascii.eqb c newline then EmptyString :: lines s'
      else
        match lines s' with
        | l :: ls => String c l :: ls
        | [] => [String c EmptyString]
        end
  end.

Fixpoint strip_prefix (pre s : string) : option string :=
  match pre, s with
  | EmptyString, _ => Some s
  | String a pre', String b s' =>
      if Ascii.eqb a b then strip_prefix pre' s' else None
  | String _ _, EmptyString => None
  end.

Definition is_digit (c : ascii) : bool :=
  let n := nat_of_ascii c in (48 <=? n)%nat && (n <=? 57)%nat.

(** The leading decimal digits of [s] and what follows them. *)
Fixpoint parse_digits (s : string) : string * string :=
  match s with
  | EmptyString => (EmptyString, EmptyString)
  | String c s' =>
      if is_digit c
      then let '(d, r) := parse_digits s' in (String c d, r)
      else (EmptyString, s)
  end.

(** The page number of a line of the form [--- Page <digits> ---]. *)
Definition parse_header (line : string) : option nat :=
  match strip_prefix "--- Page " line with
  | None => None
  | Some r =>
      let '(d, rest) := parse_digits r in
      if nonempty d && String.eqb rest " ---"
      then Nat.of_uint <$> NilEmpty.uint_of_string d
      else None
  end.

(** The page numbers of the header lines of [s], in order of appearance. *)
Definition header_numbers (s : string) : list nat :=
  omap parse_header (lines s).

(** What a page puts under its header holds no line shaped as a header. *)
Definition content_free_of_headers (p : page) : Prop :=
  if has_native_text (extract_text p)
  then header_numbers (strip (default EmptyString (extract_text p))) = []
  else
    forall groups,
      extract_structured_text p default_threshold = Some groups ->
      Forall (fun group =>
                header_numbers (strip (join " " (List.map text group))) = [])
             groups.

(** Only whitespace, or nothing at all. *)
Fixpoint whitespace_only (s : string) : bool :=
  match s with
  | EmptyString => true
  | String c s' => isspace c && whitespace_only s'
  end.

(** ** Predicates of the statements *)

(** Non-decreasing left edges. *)
Definition x0_le (a b : word) : Prop := x0 a <= x0 b.

Definition left_to_right (group : list word) : Prop :=
  StronglySorted x0_le group.

(** The words whose index, counted from [n], is not in [processed]. *)
Fixpoint unprocessed_from (n : nat) (words : list word)
    (processed : gset nat) : list word :=
  match words with
  | [] => []
  | w :: words' =>
      if bool_decide (n ∈ processed)
      then unprocessed_from (S n) words' processed
      else w :: unprocessed_from (S n) words' processed
  end.

Definition unprocessed (words : list word) (processed : gset nat)
    : list word :=
  unprocessed_from 0 words processed.

(** The word and the index of a scan go together, and name a word that
    is not yet grouped. *)
Definition pick_ok (words : list word) (processed : gset nat)
    (st : scan_state) : Prop :=
  match closest_word st with
  | None => True
  | Some w =>
      exists j,
        closest_idx st = Some j /\ words !! j = Some w /\ (j ∉ processed)
  end.

(** A finalized line: not empty, left edges non-decreasing. *)
Definition line_ok (group : list word) : Prop :=
  group ≠ [] /\ left_to_right group.

(** No character of [s] is a newline. *)
Fixpoint no_newline (s : string) : bool :=
  match s with
  | EmptyString => true
  | String c s' => negb (Ascii.eqb c newline) && no_newline s'
  end.

(** The text ends with a character that is not whitespace, then a
    newline. *)
Definition ends_tight (t : string) : Prop :=
  exists x c, t = x +:+ String c nl /\ isspace c = false.

(** The text opens with the newline and the dash of a first header. *)
Definition starts_with_header (t : string) : Prop :=
  exists r, t = String newline (String "-" r).

(** The page object whose two calls return the values of [p]. *)
Definition returning (p : page) : pdf_page :=
  {| call_extract_text := Returns (extract_text p);
     call_extract_words := Returns (extract_words p) |}.

(** The calls that the loop body makes on [lp] return the values of [p]:
    the text always, the words when the text is not usable. *)
Definition calls_return (lp : pdf_page) (p : page) : Prop :=
  call_extract_text lp = Returns (extract_text p)
  /\ (has_native_text (extract_text p) = false ->
      call_extract_words lp = Returns (extract_words p)).

(** [f] applied to what was returned; a raised exception stays. *)
Definition on_return {A B : Type} (f : A -> B) (o : outcome A) : outcome B :=
  match o with
  | Returns a => Returns (f a)
  | Raises e => Raises e
  end.

(** [a <= b] on running minima. *)
Definition dist_le (a b : dist) : Prop := dist_ltb b a = false.

(** A running minimum that is not negative. *)
Definition dist_nonneg (d : dist) : Prop :=
  match d with
  | Fin q => 0 <= q
  | Inf => True
  end.

(** ** Sample inputs *)

(** A box of width and height 2 around the centre [(cx, cy)]. *)
Definition box_at (cx cy : Z) (s : string) : word :=
  {| x0 := inject_Z cx - 1; x1 := inject_Z cx + 1;
     top := inject_Z cy - 1; bottom := inject_Z cy + 1;
     text := s |}.

(** A page without native text. *)
Definition page_of_words (ws : list word) : page :=
  {| extract_text := None; extract_words := ws |}.

(** Three words in reading order: [near_below] is a horizontal candidate
    of [seed] (1 across, 5 down), [far_right] a vertical one (20 across,
    10 down). *)
Definition seed : word := box_at 1 11 "A".
Definition near_below : word := box_at 2 16 "B".
Definition far_right : word := box_at 21 21 "C".

(** Two words of one row, 10 apart. *)
Definition row_left : word :=
  {| x0 := 10; x1 := 20; top := 100; bottom := 110; text := "left" |}.
Definition row_right : word :=
  {| x0 := 20; x1 := 30; top := 100; bottom := 110; text := "right" |}.

(** The three words of the scenario: centres (0,0), (20,0), (0,30). *)
Definition word_A : word := box_at 0 0 "A".
Definition word_B : word := box_at 20 0 "B".
Definition word_C : word := box_at 0 30 "C".

(** Two words of one column, 30 apart. *)
Definition column_upper : word :=
  {| x0 := 10; x1 := 20; top := 100; bottom := 110; text := "upper" |}.
Definition column_lower : word :=
  {| x0 := 10; x1 := 20; top := 130; bottom := 140; text := "lower" |}.

(** A page whose native text is three spaces, with two words on it. *)
Definition three_spaces_page : page :=
  {| extract_text := Some "   "; extract_words := [row_left; row_right] |}.

(** A file system without any document. *)
Definition no_documents (pdf_path : string) : outcome (list pdf_page) :=
  Raises FileNotFoundError.

(** A file system in which the document exists and may not be read:
    opening it raises [PermissionError], which is not a
    [FileNotFoundError]. *)
Definition locked_documents (pdf_path : string) : outcome (list pdf_page) :=
  Raises (OtherException "[Errno 13] Permission denied: 'locked.pdf'").

(** A page with native text whose word extraction raises. *)
Definition hello_page_without_words : pdf_page :=
  {| call_extract_text := Returns (Some "  hello  ");
     call_extract_words := Raises (OtherException "no words") |}.

(** A page whose text cannot be extracted. *)
Definition broken_page : pdf_page :=
  {| call_extract_text := Raises (OtherException "bad page");
     call_extract_words := Returns [] |}.

(** A one-page document whose only text is shaped as a header. *)
Definition page_quoting_a_header : page :=
  {| extract_text := Some "--- Page 2 ---"; extract_words := [] |}.

(** A file system in which every path opens as that document. *)
Definition one_page_document (pdf_path : string)
    : outcome (list pdf_page) :=
  Returns [returning page_quoting_a_header].

(** A document with a native page, a page rebuilt from its words and a
    page without text or words. *)
Definition sample_pages : list page :=
  [ {| extract_text := Some "  hello  "; extract_words := [] |};
    {| extract_text := Some "   "; extract_words := [row_right; row_left] |};
    {| extract_text := None; extract_words := [] |} ].

Definition sample_document (pdf_path : string) : outcome (list pdf_page) :=
  Returns (List.map returning sample_pages).

(** A page with native text and with a word that the text does not
    mention. *)
Definition hello_page : page :=
  {| extract_text := Some "  hello  "; extract_words := [row_left] |}.

(** A word box that holds a single space, as [keep_blank_chars=True]
    lets through. *)
Definition blank_word : word :=
  {| x0 := 40; x1 := 45; top := 100; bottom := 110; text := " " |}.

(** A file system in which every path opens as the sample document with
    [hello_page] first. *)
Definition hello_document (pdf_path : string) : outcome (list pdf_page) :=
  Returns (List.map returning (hello_page :: sample_pages)).

(** A document that opens, with a page that reads and a page that does
    not. *)
Definition half_broken_document (pdf_path : string)
    : outcome (list pdf_page) :=
  Returns [returning hello_page; broken_page].

(** * Properties of the reconstruction *)

(** ** Comparisons *)

Lemma Qltb_lt (a b : Q) : Qltb a b = true <-> a < b.
Proof.
  unfold Qltb. rewrite negb_true_iff. split.
  - intros H. apply Qnot_le_lt. intros Hle.
    apply Qle_bool_iff in Hle. congruence.
  - intros H. destruct (Qle_bool b a) eqn:E; [|reflexivity].
    apply Qle_bool_iff in E. exfalso. exact (Qlt_not_le _ _ H E).
Qed.

Lemma Qltb_ge (a b : Q) : Qltb a b = false <-> b <= a.
Proof.
  unfold Qltb. rewrite negb_false_iff. apply Qle_bool_iff.
Qed.

(** ** [sorted] permutes and orders *)

Section SortingFacts.
Context {A K : Type} (key : A -> K) (ltb : K -> K -> bool).

Lemma sorted_insert_perm (x : A) (l : list A) :
  sorted_insert key ltb x l ≡ₚ x :: l.
Proof.
  induction l as [|y l IH]; simpl; [reflexivity|].
  destruct (ltb (key y) (key x)); [|reflexivity].
  rewrite IH. apply perm_swap.
Qed.

Lemma sorted_perm (l : list A) : sorted key ltb l ≡ₚ l.
Proof.
  induction l as [|x l IH]; simpl; [reflexivity|].
  rewrite sorted_insert_perm. by rewrite IH.
Qed.

Lemma sorted_nonempty (l : list A) : l ≠ [] -> sorted key ltb l ≠ [].
Proof.
  intros Hl Hs. apply Hl. apply Permutation_nil.
  rewrite <- Hs. exact (sorted_perm l).
Qed.

(** With [le] the reverse of the strict order used by the sort. *)
Context (le : A -> A -> Prop).
Hypothesis le_of_not_lt :
  forall x y, ltb (key y) (key x) = false -> le x y.
Hypothesis le_of_lt :
  forall x y, ltb (key y) (key x) = true -> le y x.

Lemma sorted_insert_HdRel (a x : A) (l : list A) :
  le a x -> HdRel le a l -> HdRel le a (sorted_insert key ltb x l).
Proof.
  intros Hax Hl. destruct l as [|y l]; simpl.
  - by constructor.
  - inversion Hl; subst.
    destruct (ltb (key y) (key x)); by constructor.
Qed.

Lemma sorted_insert_Sorted (x : A) (l : list A) :
  Sorted le l -> Sorted le (sorted_insert key ltb x l).
Proof.
  induction l as [|y l IH]; simpl; intros Hs.
  - repeat constructor.
  - inversion Hs as [|? ? Hs' Hhd]; subst.
    destruct (ltb (key y) (key x)) eqn:E.
    + constructor; [by apply IH|].
      apply sorted_insert_HdRel; [by apply le_of_lt | done].
    + constructor; [done|]. constructor. by apply le_of_not_lt.
Qed.

Lemma sorted_Sorted (l : list A) : Sorted le (sorted key ltb l).
Proof.
  induction l as [|x l IH]; simpl; [constructor|].
  by apply sorted_insert_Sorted.
Qed.
End SortingFacts.

Lemma sort_by_x0_left_to_right (group : list word) :
  left_to_right (sort_by_x0 group).
Proof.
  apply Sorted_StronglySorted.
  - intros a b c Hab Hbc. unfold x0_le in *. by eapply Qle_trans.
  - apply sorted_Sorted.
    + intros x y H. by apply Qltb_ge in H.
    + intros x y H. apply Qltb_lt in H. by apply Qlt_le_weak.
Qed.

(** ** Indices and the words still to be grouped *)

Lemma enumerate_from_lookup {A : Type} (l : list A) (n j : nat) (x : A) :
  (j, x) ∈ enumerate_from n l -> exists k, j = (n + k)%nat /\ l !! k = Some x.
Proof.
  revert n. induction l as [|y l IH]; simpl; intros n Hin.
  - by apply elem_of_nil in Hin.
  - apply elem_of_cons in Hin as [Heq|Hin].
    + inversion Heq; subst. exists 0%nat. split; [lia|done].
    + apply IH in Hin as (k & -> & Hk). exists (S k). split; [lia|done].
Qed.

Lemma lookup_enumerate_from {A : Type} (l : list A) (n k : nat) (x : A) :
  l !! k = Some x -> ((n + k)%nat, x) ∈ enumerate_from n l.
Proof.
  revert n k. induction l as [|y l IH]; intros n [|k] Hk; simpl in *;
    try discriminate.
  - inversion Hk; subst. rewrite Nat.add_0_r. apply list_elem_of_here.
  - apply list_elem_of_further.
    replace (n + S k)%nat with (S n + k)%nat by lia. by apply IH.
Qed.

Lemma unprocessed_from_ext (words : list word) (n : nat) (P P' : gset nat) :
  (forall k, (n <= k)%nat -> k ∈ P <-> k ∈ P') ->
  unprocessed_from n words P = unprocessed_from n words P'.
Proof.
  revert n. induction words as [|w words IH]; simpl; intros n HP; [done|].
  rewrite (IH (S n)) by (intros k Hk; apply HP; lia).
  rewrite (bool_decide_ext (n ∈ P) (n ∈ P')) by (apply HP; lia). done.
Qed.

Lemma unprocessed_from_take (words : list word) (n j : nat) (w : word)
    (P : gset nat) :
  words !! j = Some w -> (n + j)%nat ∉ P ->
  unprocessed_from n words P
    ≡ₚ w :: unprocessed_from n words ({[ (n + j)%nat ]} ∪ P).
Proof.
  revert n j. induction words as [|x words IH]; intros n [|j] Hj Hn;
    simpl in *; try discriminate.
  - inversion Hj; subst. rewrite Nat.add_0_r in *.
    rewrite bool_decide_eq_false_2 by done.
    rewrite bool_decide_eq_true_2 by set_solver.
    rewrite (unprocessed_from_ext words (S n) P ({[n]} ∪ P)); [done|].
    intros k Hk. rewrite elem_of_union, elem_of_singleton.
    split; [tauto|]. intros [->|H]; [lia|done].
  - replace (n + S j)%nat with (S n + j)%nat in * by lia.
    rewrite (bool_decide_ext (n ∈ {[(S n + j)%nat]} ∪ P) (n ∈ P)).
    2:{ rewrite elem_of_union, elem_of_singleton.
        split; [|tauto]. intros [H|H]; [lia|done]. }
    specialize (IH (S n) j Hj Hn).
    destruct (bool_decide (n ∈ P)); [done|].
    rewrite IH. apply perm_swap.
Qed.

Lemma unprocessed_take (words : list word) (j : nat) (w : word)
    (P : gset nat) :
  words !! j = Some w -> j ∉ P ->
  unprocessed words P ≡ₚ w :: unprocessed words ({[ j ]} ∪ P).
Proof. intros. by apply (unprocessed_from_take words 0 j). Qed.

Lemma unprocessed_from_length (words : list word) (n : nat) (P : gset nat) :
  (length (unprocessed_from n words P) <= length words)%nat.
Proof.
  revert n. induction words as [|w words IH]; simpl; intros n; [lia|].
  specialize (IH (S n)). destruct (bool_decide (n ∈ P)); simpl; lia.
Qed.

Lemma unprocessed_from_all (words : list word) (n : nat) (P : gset nat) :
  (forall k, (k < length words)%nat -> (n + k)%nat ∈ P) ->
  unprocessed_from n words P = [].
Proof.
  revert n. induction words as [|w words IH]; simpl; intros n HP; [done|].
  rewrite bool_decide_eq_true_2.
  - apply IH. intros k Hk.
    replace (S n + k)%nat with (n + S k)%nat by lia. apply HP. lia.
  - specialize (HP 0%nat). rewrite Nat.add_0_r in HP. apply HP. lia.
Qed.

Lemma unprocessed_from_empty (words : list word) (n : nat) :
  unprocessed_from n words ∅ = words.
Proof.
  revert n. induction words as [|w words IH]; simpl; intros n; [done|].
  rewrite bool_decide_eq_false_2 by set_solver. by rewrite IH.
Qed.

(** ** What a scan returns *)

Lemma fold_left_invariant {S X : Type} (I : S -> Prop) (f : S -> X -> S)
    (l : list X) (s : S) :
  (forall x st, x ∈ l -> I st -> I (f st x)) ->
  I s -> I (fold_left f l s).
Proof.
  revert s. induction l as [|x l IH]; simpl; intros s Hf Hs; [done|].
  apply IH.
  - intros y st Hy. apply Hf. by apply list_elem_of_further.
  - apply Hf; [apply list_elem_of_here | done].
Qed.

Lemma scan_step_pick_ok (words : list word) (processed : gset nat)
    (current_word : word) (st : scan_state) (j : nat) (w : word) :
  words !! j = Some w -> pick_ok words processed st ->
  pick_ok words processed (scan_step processed current_word st (j, w)).
Proof.
  intros Hj Hst. unfold scan_step.
  destruct (bool_decide (j ∈ processed)) eqn:E; [done|].
  apply bool_decide_eq_false in E.
  destruct (get_directional_distances current_word w) as [h v].
  unfold classify.
  destruct (_ && _); [by exists j|].
  destruct (dist_ltb _ _); [by exists j | done].
Qed.

Lemma scan_pick_ok (words : list word) (processed : gset nat)
    (current_word : word) :
  pick_ok words processed (scan words processed current_word).
Proof.
  unfold scan. apply fold_left_invariant; [|exact I].
  intros [j w] st Hin Hst.
  apply enumerate_from_lookup in Hin as (k & -> & Hk).
  by apply scan_step_pick_ok.
Qed.

(** ** The loops *)

Lemma finalize_nonempty (current_group : list word)
    (groups : list (list word)) :
  current_group ≠ [] ->
  finalize current_group groups = groups ++ [sort_by_x0 current_group].
Proof. destruct current_group; [congruence | done]. Qed.

Lemma sort_by_x0_line_ok (group : list word) :
  group ≠ [] -> line_ok (sort_by_x0 group).
Proof.
  intros H. split.
  - by apply sorted_nonempty.
  - apply sort_by_x0_left_to_right.
Qed.

(** One run of the extension loop with enough fuel: it returns, it only
    appends lines to [groups], and the appended lines hold the current
    group and the words it took from the ungrouped ones. *)
Lemma extend_group_spec (words : list word) (threshold : Q) (fuel : nat) :
  forall (current_word : word) (current_group : list word)
         (processed : gset nat) (groups : list (list word)),
    (length (unprocessed words processed) < fuel)%nat ->
    current_group ≠ [] ->
    exists (new : list (list word)) (processed' : gset nat),
      extend_group fuel words threshold current_word current_group
        processed groups = Some (groups ++ new, processed')
      /\ processed ⊆ processed'
      /\ Forall line_ok new
      /\ concat new ++ unprocessed words processed'
           ≡ₚ current_group ++ unprocessed words processed.
Proof.
  induction fuel as [|fuel IH]; intros cur cg P gs Hfuel Hcg; [lia|].
  assert (Hstop : exists new P',
    Some (finalize cg gs, P) = Some (gs ++ new, P') /\ P ⊆ P'
    /\ Forall line_ok new
    /\ concat new ++ unprocessed words P' ≡ₚ cg ++ unprocessed words P).
  { exists [sort_by_x0 cg], P. rewrite finalize_nonempty by done.
    split; [done|]. split; [done|]. split.
    - constructor; [by apply sort_by_x0_line_ok | constructor].
    - simpl. rewrite app_nil_r. apply Permutation_app_tail.
      apply sorted_perm. }
  simpl. pose proof (scan_pick_ok words P cur) as Hpick.
  unfold pick_ok in Hpick.
  destruct (closest_word (scan words P cur)) as [cw|]; [|exact Hstop].
  destruct (dist_gtb _ threshold); [exact Hstop|].
  destruct Hpick as (j & -> & Hj & HjP). simpl.
  pose proof (unprocessed_take words j cw P Hj HjP) as Htake.
  assert (Hfuel' : (length (unprocessed words ({[j]} ∪ P)) < fuel)%nat).
  { apply Permutation_length in Htake. simpl in Htake. lia. }
  destruct (is_horizontal (scan words P cur)).
  - destruct (IH cw (cg ++ [cw]) ({[j]} ∪ P) gs Hfuel')
      as (new & P' & -> & HP & Hnew & Hperm).
    { by destruct cg. }
    exists new, P'. split; [done|].
    split; [by etrans; [apply union_subseteq_r|]|]. split; [done|].
    rewrite Hperm, Htake, <- app_assoc. done.
  - destruct (IH cw [cw] ({[j]} ∪ P) (gs ++ [sort_by_x0 cg]) Hfuel')
      as (new & P' & -> & HP & Hnew & Hperm); [done|].
    exists (sort_by_x0 cg :: new), P'.
    split; [by rewrite <- app_assoc|].
    split; [by etrans; [apply union_subseteq_r|]|]. split.
    + constructor; [by apply sort_by_x0_line_ok | done].
    + simpl. rewrite <- app_assoc, Hperm, Htake.
      apply Permutation_app_tail. apply sorted_perm.
Qed.

(** The outer loop, for a [todo] list that still holds every ungrouped
    word under its own index. *)
Lemma group_loop_spec (words : list word) (threshold : Q) (fuel : nat) :
  (length words < fuel)%nat ->
  forall (todo : list (nat * word)) (processed : gset nat)
         (groups : list (list word)),
    (forall j w, (j, w) ∈ todo -> words !! j = Some w) ->
    (forall j w, words !! j = Some w -> j ∉ processed -> (j, w) ∈ todo) ->
    exists new : list (list word),
      group_loop fuel words threshold todo processed groups
        = Some (groups ++ new)
      /\ Forall line_ok new
      /\ concat new ≡ₚ unprocessed words processed.
Proof.
  intros Hfuel. induction todo as [|[i cur] todo IH];
    intros P gs Hin Hall; simpl.
  - exists []. rewrite app_nil_r. split; [done|]. split; [constructor|].
    simpl. unfold unprocessed. rewrite unprocessed_from_all; [done|].
    intros k Hk. simpl. destruct (decide (k ∈ P)) as [|Hn]; [done|].
    destruct (lookup_lt_is_Some_2 words k Hk) as [w Hw].
    specialize (Hall k w Hw Hn). by apply elem_of_nil in Hall.
  - assert (Hin' : forall j w, (j, w) ∈ todo -> words !! j = Some w).
    { intros j w H. apply Hin. by apply list_elem_of_further. }
    destruct (bool_decide (i ∈ P)) eqn:E.
    + apply bool_decide_eq_true in E. apply IH; [done|].
      intros j w Hw Hj. specialize (Hall j w Hw Hj).
      apply elem_of_cons in Hall as [Heq|H]; [|done].
      inversion Heq; subst. done.
    + apply bool_decide_eq_false in E.
      assert (Hi : words !! i = Some cur) by (apply Hin; apply list_elem_of_here).
      pose proof (unprocessed_take words i cur P Hi E) as Htake.
      destruct (extend_group_spec words threshold fuel cur [cur]
                  ({[i]} ∪ P) gs) as (new1 & P' & -> & HP & Hnew1 & Hperm1).
      { pose proof (unprocessed_from_length words 0 ({[i]} ∪ P)).
        unfold unprocessed. lia. }
      { done. }
      destruct (IH P' (gs ++ new1) Hin') as (new2 & -> & Hnew2 & Hperm2).
      { intros j w Hw Hj.
        assert (Hij : j ≠ i) by (intros ->; apply Hj; set_solver).
        assert (HjP : j ∉ P) by set_solver.
        specialize (Hall j w Hw HjP).
        apply elem_of_cons in Hall as [Heq|H]; [|done].
        inversion Heq; subst. done. }
      exists (new1 ++ new2). split; [by rewrite app_assoc|]. split.
      * by apply Forall_app.
      * rewrite concat_app, Hperm2, Hperm1, Htake. done.
Qed.

(** The entry point always returns: the fuel it passes to the loops is
    never used up. It returns lines that are not empty, are ordered left to
    right, and together hold the words of the page. *)
Lemma extract_structured_text_spec (p : page) (threshold : Q) :
  exists groups : list (list word),
    extract_structured_text p threshold = Some groups
    /\ Forall line_ok groups
    /\ concat groups ≡ₚ extract_words p.
Proof.
  unfold extract_structured_text.
  destruct (extract_words p) as [|w ws] eqn:Hws.
  - exists []. split; [done|]. split; [constructor | done].
  - set (words := sort_reading_order (w :: ws)).
    destruct (group_loop_spec words threshold (S (length words))
                ltac:(lia) (enumerate words) ∅ [])
      as (new & Hrun & Hok & Hperm).
    + intros j x Hin.
      apply enumerate_from_lookup in Hin as (k & -> & Hk). done.
    + intros j x Hj _. by apply (lookup_enumerate_from words 0 j).
    + exists new. split; [exact Hrun|]. split; [done|].
      rewrite Hperm. unfold unprocessed. rewrite unprocessed_from_empty.
      apply sorted_perm.
Qed.

Lemma extract_structured_text_total (p : page) (threshold : Q) :
  exists groups, extract_structured_text p threshold = Some groups.
Proof.
  destruct (extract_structured_text_spec p threshold) as (g & H & _).
  by exists g.
Qed.

(** ** Ordering and partition of the returned lines *)

(** C6. For every page and threshold, [extract_structured_text] returns,
    and every returned LineGroup has its words in non-decreasing order of
    the left edge [x0]. *)
Theorem groups_sorted_by_left_edge (p : page) (threshold : Q) :
  exists groups : list (list word),
    extract_structured_text p threshold = Some groups
    /\ Forall left_to_right groups.
Proof.
  destruct (extract_structured_text_spec p threshold) as (g & Hg & Hok & _).
  exists g. split; [done|].
  eapply Forall_impl; [exact Hok|]. by intros x [_ H].
Qed.

(** C10. For every word list and threshold, the returned LineGroups
    partition the input words: concatenated they are a permutation of the
    input (each word occurrence is in exactly one group, none is dropped,
    none is duplicated), and no group is empty. *)
Theorem groups_partition_words (p : page) (threshold : Q) :
  exists groups : list (list word),
    extract_structured_text p threshold = Some groups
    /\ concat groups ≡ₚ extract_words p
    /\ Forall (fun group => group ≠ []) groups.
Proof.
  destruct (extract_structured_text_spec p threshold)
    as (g & Hg & Hok & Hperm).
  exists g. split; [done|]. split; [done|].
  eapply Forall_impl; [exact Hok|]. by intros x [H _].
Qed.

(** ** The classification of one candidate *)

(** The three ways one step of the scan can go. *)
Lemma scan_step_cases (processed : gset nat) (current_word : word)
    (st : scan_state) (j : nat) (w : word) :
  let h := fst (get_directional_distances current_word w) in
  let v := snd (get_directional_distances current_word w) in
  let st' := scan_step processed current_word st (j, w) in
  st' = st
  \/ ((j ∉ processed)
      /\ (Qltb h v && dist_ltb (Fin h) (min_horizontal_dist st)) = true
      /\ st' = record_horizontal st j w h)
  \/ ((j ∉ processed)
      /\ (Qltb h v && dist_ltb (Fin h) (min_horizontal_dist st)) = false
      /\ dist_ltb (Fin v) (min_vertical_dist st) = true
      /\ st' = record_vertical st j w v).
Proof.
  cbv zeta. unfold scan_step, classify.
  destruct (bool_decide (j ∈ processed)) eqn:E; [by left|].
  apply bool_decide_eq_false in E.
  destruct (get_directional_distances current_word w) as [h v].
  cbn [fst snd].
  destruct (Qltb h v && dist_ltb (Fin h) (min_horizontal_dist st)).
  - right. left. repeat split; done.
  - destruct (dist_ltb (Fin v) (min_vertical_dist st)).
    + right. right. repeat split; done.
    + by left.
Qed.

(** C5. A candidate not yet grouped whose horizontal and vertical centre
    distances to the current word are equal never takes the horizontal
    branch: the step either records it as the vertical candidate (when its
    vertical distance improves the vertical minimum) or leaves the scan
    state as it was, and the horizontal minimum stays what it was. *)
Theorem diagonal_candidate_is_vertical (processed : gset nat)
    (current_word other_word : word) (st : scan_state) (j : nat) :
  j ∉ processed ->
  fst (get_directional_distances current_word other_word)
    == snd (get_directional_distances current_word other_word) ->
  scan_step processed current_word st (j, other_word)
  = (if dist_ltb
          (Fin (snd (get_directional_distances current_word other_word)))
          (min_vertical_dist st)
     then record_vertical st j other_word
            (snd (get_directional_distances current_word other_word))
     else st)
  /\ min_horizontal_dist (scan_step processed current_word st (j, other_word))
     = min_horizontal_dist st.
Proof.
  intros Hj Heq. unfold scan_step, classify.
  rewrite bool_decide_eq_false_2 by done.
  destruct (get_directional_distances current_word other_word) as [h v].
  cbn [fst snd] in *.
  assert (Hlt : Qltb h v = false).
  { apply Qltb_ge. rewrite Heq. apply Qle_refl. }
  rewrite Hlt. cbn [andb]. split; [done|].
  by destruct (dist_ltb (Fin v) (min_vertical_dist st)).
Qed.

Lemma diagonal_candidate_is_vertical_witness :
  (1%nat ∉ (∅ : gset nat))
  /\ fst (get_directional_distances (box_at 0 0 "A") (box_at 5 5 "B"))
     == snd (get_directional_distances (box_at 0 0 "A") (box_at 5 5 "B"))
  /\ scan_step ∅ (box_at 0 0 "A") scan_init (1%nat, box_at 5 5 "B")
     = record_vertical scan_init 1 (box_at 5 5 "B")
         (snd (get_directional_distances (box_at 0 0 "A") (box_at 5 5 "B")))
  /\ min_horizontal_dist
       (scan_step ∅ (box_at 0 0 "A") scan_init (1%nat, box_at 5 5 "B"))
     = Inf.
Proof.
  split; [apply not_elem_of_empty|]. split; [reflexivity|].
  exact (diagonal_candidate_is_vertical ∅ (box_at 0 0 "A") (box_at 5 5 "B")
           scan_init 1 (not_elem_of_empty 1%nat) (eq_refl : _ == _)).
Defined.

(** ** Which candidate a scan ends up with *)

Example seed_row_in_reading_order :
  sort_reading_order [far_right; seed; near_below]
  = [seed; near_below; far_right].
Proof. reflexivity. Qed.

(** C2, refuted. The scan from [seed] over the other two words records a
    best horizontal candidate ([near_below]) and a best vertical candidate
    ([far_right]); the closest word is the vertical one. *)
Lemma vertical_candidate_overrides_horizontal :
  let st := scan [seed; near_below; far_right] {[ 0%nat ]} seed in
  min_horizontal_dist st
    = Fin (fst (get_directional_distances seed near_below))
  /\ min_vertical_dist st
    = Fin (snd (get_directional_distances seed far_right))
  /\ closest_word st = Some far_right
  /\ closest_idx st = Some 2%nat
  /\ is_horizontal st = false.
Proof. vm_compute. repeat split. Qed.

(** The whole run on these words: the vertical pick closes the line of
    [seed] although [near_below] was its horizontal candidate. *)
Example seed_row_groups :
  extract_structured_text
    (page_of_words [seed; near_below; far_right]) default_threshold
  = Some [[seed]; [far_right]; [near_below]].
Proof. vm_compute. reflexivity. Qed.

Lemma last_update_of_fold (processed : gset nat) (current_word : word)
    (l : list (nat * word)) :
  let step := scan_step processed current_word in
  let st := fold_left step l scan_init in
  forall j, closest_idx st = Some j ->
  exists l1 w l2,
    l = l1 ++ (j, w) :: l2
    /\ (j ∉ processed)
    /\ closest_word st = Some w
    /\ Forall (fun c => step st c = st) l2
    /\ let st1 := fold_left step l1 scan_init in
       let h := fst (get_directional_distances current_word w) in
       let v := snd (get_directional_distances current_word w) in
       ((Qltb h v && dist_ltb (Fin h) (min_horizontal_dist st1)) = true
        /\ st = record_horizontal st1 j w h)
       \/ ((Qltb h v && dist_ltb (Fin h) (min_horizontal_dist st1)) = false
           /\ dist_ltb (Fin v) (min_vertical_dist st1) = true
           /\ st = record_vertical st1 j w v).
Proof.
  cbv zeta. induction l as [|[j' w'] l IH] using rev_ind; intros j.
  - discriminate.
  - rewrite fold_left_app. cbn [fold_left].
    set (step := scan_step processed current_word) in *.
    set (st' := fold_left step l scan_init) in *.
    destruct (scan_step_cases processed current_word st' j' w')
      as [Hsame | [(Hn & Hc & Hst) | (Hn & Hc & Hv & Hst)]];
      fold step in Hsame || fold step in Hst.
    + rewrite Hsame. intros Hj.
      destruct (IH j Hj) as (l1 & w & l2 & Hl & Hnp & Hw & Hl2 & Hlast).
      exists l1, w, (l2 ++ [(j', w')]).
      split; [by rewrite Hl, <- app_assoc|]. split; [done|]. split; [done|].
      split; [|exact Hlast].
      apply Forall_app. split; [done|]. by constructor.
    + rewrite Hst. intros Hj. cbn in Hj. inversion Hj; subst j'.
      exists l, w', []. split; [done|]. split; [done|]. split; [done|].
      split; [constructor|]. left. by split.
    + rewrite Hst. intros Hj. cbn in Hj. inversion Hj; subst j'.
      exists l, w', []. split; [done|]. split; [done|]. split; [done|].
      split; [constructor|]. right. by repeat split.
Qed.

(** C2, as the code has it. The closest word of a scan is the candidate
    that made the last update of either running minimum: every candidate
    after it leaves the state alone, and the pick is horizontal exactly
    when that last update took the horizontal branch, vertical when it
    took the vertical one. When no horizontal candidate was recorded the
    pick is the vertical one. *)
Theorem closest_word_is_last_update (words : list word)
    (processed : gset nat) (current_word : word) (j : nat) :
  let step := scan_step processed current_word in
  let st := scan words processed current_word in
  closest_idx st = Some j ->
  exists l1 w l2,
    enumerate words = l1 ++ (j, w) :: l2
    /\ (j ∉ processed)
    /\ closest_word st = Some w
    /\ Forall (fun c => step st c = st) l2
    /\ (let st1 := fold_left step l1 scan_init in
        let h := fst (get_directional_distances current_word w) in
        let v := snd (get_directional_distances current_word w) in
        ((Qltb h v && dist_ltb (Fin h) (min_horizontal_dist st1)) = true
         /\ st = record_horizontal st1 j w h)
        \/ ((Qltb h v && dist_ltb (Fin h) (min_horizontal_dist st1)) = false
            /\ dist_ltb (Fin v) (min_vertical_dist st1) = true
            /\ st = record_vertical st1 j w v))
    /\ (min_horizontal_dist st = Inf -> is_horizontal st = false).
Proof.
  cbv zeta. intros Hj.
  destruct (last_update_of_fold processed current_word (enumerate words) j Hj)
    as (l1 & w & l2 & Hl & Hn & Hw & Hl2 & Hlast).
  exists l1, w, l2. do 4 (split; [done|]). split; [exact Hlast|].
  fold (scan words processed current_word) in Hlast.
  destruct Hlast as [[_ ->] | (_ & _ & ->)]; [discriminate | done].
Qed.

Lemma closest_word_is_last_update_witness :
  let words := [seed; near_below; far_right] in
  let step := scan_step {[ 0%nat ]} seed in
  let st := scan words {[ 0%nat ]} seed in
  closest_idx st = Some 2%nat
  /\ exists l1 w l2,
    enumerate words = l1 ++ (2%nat, w) :: l2
    /\ (2%nat ∉ ({[ 0%nat ]} : gset nat))
    /\ closest_word st = Some w
    /\ Forall (fun c => step st c = st) l2
    /\ (let st1 := fold_left step l1 scan_init in
        let h := fst (get_directional_distances seed w) in
        let v := snd (get_directional_distances seed w) in
        ((Qltb h v && dist_ltb (Fin h) (min_horizontal_dist st1)) = true
         /\ st = record_horizontal st1 2 w h)
        \/ ((Qltb h v && dist_ltb (Fin h) (min_horizontal_dist st1)) = false
            /\ dist_ltb (Fin v) (min_vertical_dist st1) = true
            /\ st = record_vertical st1 2 w v))
    /\ (min_horizontal_dist st = Inf -> is_horizontal st = false).
Proof.
  cbv zeta. split; [vm_compute; reflexivity|].
  apply (closest_word_is_last_update [seed; near_below; far_right]
           {[ 0%nat ]} seed 2).
  vm_compute; reflexivity.
Defined.

(** ** Words of one row, words of one column *)

(** A scan that finds every index in [processed] returns its initial
    state. *)
Lemma scan_nothing_left (words : list word) (processed : gset nat)
    (current_word : word) :
  (forall j, (j < length words)%nat -> j ∈ processed) ->
  scan words processed current_word = scan_init.
Proof.
  intros Hall. unfold scan.
  apply (fold_left_invariant (fun st => st = scan_init)); [|done].
  intros [j w] st Hin ->.
  apply enumerate_from_lookup in Hin as (k & -> & Hk).
  apply lookup_lt_Some in Hk. unfold scan_step.
  by rewrite bool_decide_eq_true_2 by (apply Hall; lia).
Qed.

(** Settles the membership tests on explicit index sets. *)
Ltac settle_membership :=
  repeat match goal with
  | |- context [bool_decide (?j ∈ ?P)] =>
      first [ replace (bool_decide (j ∈ P)) with true
                by (vm_compute; reflexivity)
            | replace (bool_decide (j ∈ P)) with false
                by (vm_compute; reflexivity) ]
  end.

(** Proves a membership in an explicit index set. *)
Ltac in_explicit_set :=
  match goal with
  | |- ?j ∈ ?P => apply (bool_decide_unpack (j ∈ P)); vm_compute; exact I
  end.

(** The loops, one iteration at a time. *)
Lemma extend_group_step (fuel : nat) (words : list word) (threshold : Q)
    (current_word : word) (current_group : list word)
    (processed : gset nat) (groups : list (list word)) :
  extend_group (S fuel) words threshold current_word current_group
    processed groups
  = let st := scan words processed current_word in
    match closest_word st with
    | None => Some (finalize current_group groups, processed)
    | Some cw =>
        if dist_gtb (dist_min (min_horizontal_dist st)
                              (min_vertical_dist st)) threshold
        then Some (finalize current_group groups, processed)
        else
          let processed' := add_idx (closest_idx st) processed in
          if is_horizontal st
          then extend_group fuel words threshold cw
                 (current_group ++ [cw]) processed' groups
          else extend_group fuel words threshold cw
                 [cw] processed' (groups ++ [sort_by_x0 current_group])
    end.
Proof. reflexivity. Qed.

Lemma extend_group_stop (fuel : nat) (words : list word) (threshold : Q)
    (current_word : word) (current_group : list word)
    (processed : gset nat) (groups : list (list word)) :
  scan words processed current_word = scan_init ->
  extend_group (S fuel) words threshold current_word current_group
    processed groups
  = Some (finalize current_group groups, processed).
Proof. intros H. rewrite extend_group_step, H. reflexivity. Qed.

Lemma group_loop_cons (fuel : nat) (words : list word) (threshold : Q)
    (i : nat) (current_word : word) (todo : list (nat * word))
    (processed : gset nat) (groups : list (list word)) :
  group_loop fuel words threshold ((i, current_word) :: todo) processed groups
  = if bool_decide (i ∈ processed)
    then group_loop fuel words threshold todo processed groups
    else
      match extend_group fuel words threshold current_word
              [current_word] ({[ i ]} ∪ processed) groups with
      | None => None
      | Some (groups', processed') =>
          group_loop fuel words threshold todo processed' groups'
      end.
Proof. reflexivity. Qed.

(** Two words in reading order: they share a line exactly when the second
    lies more down than across from the first and its horizontal distance
    is within the threshold. *)
Lemma two_sorted_words (u v : word) (threshold : Q) :
  let h := fst (get_directional_distances u v) in
  let vd := snd (get_directional_distances u v) in
  group_loop 3 [u; v] threshold (enumerate [u; v]) ∅ []
  = Some (if Qltb h vd && negb (Qltb threshold h)
          then [sort_by_x0 [u; v]]
          else [[u]; [v]]).
Proof.
  cbv zeta.
  assert (Hscan : scan [u; v] ({[0%nat]} ∪ ∅) u
            = classify scan_init 1 v (fst (get_directional_distances u v))
                (snd (get_directional_distances u v))).
  { unfold scan, enumerate. cbn [enumerate_from fold_left scan_step].
    settle_membership.
    by destruct (get_directional_distances u v). }
  assert (Hdone : forall (P : gset nat) cur,
            0%nat ∈ P -> 1%nat ∈ P -> scan [u; v] P cur = scan_init).
  { intros P cur H0 H1. apply scan_nothing_left.
    intros [|[|j]] Hj; simpl in Hj; [done | done | lia]. }
  destruct (get_directional_distances u v) as [h vd]. cbn [fst snd] in *.
  unfold enumerate. cbn [enumerate_from].
  rewrite group_loop_cons. settle_membership.
  rewrite extend_group_step, Hscan. unfold classify.
  cbn [min_horizontal_dist min_vertical_dist scan_init dist_ltb].
  rewrite andb_true_r.
  destruct (Qltb h vd) eqn:Ehv; cbv zeta;
    cbn [andb record_horizontal record_vertical closest_word closest_idx
         is_horizontal min_horizontal_dist min_vertical_dist dist_min
         dist_ltb dist_gtb add_idx scan_init].
  - destruct (Qltb threshold h) eqn:Eth; cbn [negb].
    + rewrite group_loop_cons. settle_membership.
      rewrite extend_group_stop by (apply Hdone; in_explicit_set). done.
    + rewrite extend_group_stop by (apply Hdone; in_explicit_set).
      rewrite group_loop_cons. settle_membership. done.
  - destruct (Qltb threshold vd) eqn:Eth.
    + rewrite group_loop_cons. settle_membership.
      rewrite extend_group_stop by (apply Hdone; in_explicit_set). done.
    + rewrite extend_group_stop by (apply Hdone; in_explicit_set).
      rewrite group_loop_cons. settle_membership. done.
Qed.

Lemma distances_symmetric (a b : word) :
  get_directional_distances b a = get_directional_distances a b.
Proof.
  unfold get_directional_distances. f_equal; apply Qabs_Qminus.
Qed.

(** Any two words on a page: one line if the second lies more down than
    across from the first and the horizontal distance is within the
    threshold, two lines otherwise. The vertical distance is never measured
    against the threshold when the words end up together. *)
Lemma two_words_on_a_page (a b : word) (threshold : Q) :
  let h := fst (get_directional_distances a b) in
  let vd := snd (get_directional_distances a b) in
  extract_structured_text (page_of_words [a; b]) threshold
  = Some (if Qltb h vd && negb (Qltb threshold h)
          then [sort_by_x0 (sort_reading_order [a; b])]
          else List.map (fun w => [w]) (sort_reading_order [a; b])).
Proof.
  cbv zeta. unfold extract_structured_text, sort_reading_order.
  cbn [extract_words page_of_words sorted sorted_insert].
  destruct (pair_ltb (key_top_x0 b) (key_top_x0 a)); cbn [length];
    rewrite two_sorted_words; [rewrite (distances_symmetric a b)|];
    reflexivity.
Qed.

(** Two words of one row are two lines, whatever the threshold. *)
Lemma same_row_words_never_share_a_line (a b : word) (threshold : Q) :
  snd (get_directional_distances a b) == 0 ->
  extract_structured_text (page_of_words [a; b]) threshold
  = Some (List.map (fun w => [w]) (sort_reading_order [a; b])).
Proof.
  intros Hrow. rewrite two_words_on_a_page.
  assert (Hlt : Qltb (fst (get_directional_distances a b))
                     (snd (get_directional_distances a b)) = false).
  { apply Qltb_ge. rewrite Hrow. apply Qabs_nonneg. }
  by rewrite Hlt.
Qed.

(** Two words, the second more down than across: they are one line as
    soon as the horizontal distance is within the threshold, however far
    apart they are vertically. *)
Lemma stacked_words_share_a_line (a b : word) (threshold : Q) :
  fst (get_directional_distances a b) < snd (get_directional_distances a b) ->
  fst (get_directional_distances a b) <= threshold ->
  extract_structured_text (page_of_words [a; b]) threshold
  = Some [sort_by_x0 (sort_reading_order [a; b])].
Proof.
  intros Hlt Hle. rewrite two_words_on_a_page.
  apply Qltb_lt in Hlt. apply Qltb_ge in Hle. by rewrite Hlt, Hle.
Qed.

(** They are two lines when the horizontal distance too is above the
    threshold. *)
Lemma stacked_words_far_apart_are_split (a b : word) (threshold : Q) :
  fst (get_directional_distances a b) < snd (get_directional_distances a b) ->
  threshold < fst (get_directional_distances a b) ->
  extract_structured_text (page_of_words [a; b]) threshold
  = Some (List.map (fun w => [w]) (sort_reading_order [a; b])).
Proof.
  intros Hlt Hgt. rewrite two_words_on_a_page.
  apply Qltb_lt in Hlt. apply Qltb_lt in Hgt. by rewrite Hlt, Hgt.
Qed.

Example row_words_distances :
  fst (get_directional_distances row_left row_right) == 10
  /\ snd (get_directional_distances row_left row_right) == 0.
Proof. split; reflexivity. Qed.

(** C1 at a failing input. Two words with the same vertical centre, their
    centres 10 apart, threshold 15: the scan classifies the neighbour as
    vertical (its horizontal distance 10 is not below its vertical distance
    0), and the two words come back as two lines. By
    [same_row_words_never_share_a_line] this is so for every pair of words
    of one row and every threshold. *)
Theorem same_row_words_are_split :
  extract_structured_text (page_of_words [row_left; row_right])
    default_threshold
  = Some [[row_left]; [row_right]].
Proof. vm_compute. reflexivity. Qed.

(** C3 at its input. [word_C], 30 below [word_A] and straight under it,
    is a horizontal candidate at horizontal distance 0, so it joins the
    line of [word_A]: the result has two lines, not three. *)
Theorem three_words_two_groups :
  extract_structured_text (page_of_words [word_A; word_B; word_C])
    default_threshold
  = Some [[word_A; word_C]; [word_B]].
Proof. vm_compute. reflexivity. Qed.

(** The order in which the page lists the three words does not matter. *)
Example scenario_words_in_any_order :
  List.map (fun ws =>
              extract_structured_text (page_of_words ws) default_threshold)
           (permutations [word_A; word_B; word_C])
  = repeat (Some [[word_A; word_C]; [word_B]]) 6.
Proof. vm_compute. reflexivity. Qed.

(** Nor does the place of the three centres on the page: the same boxes
    moved 100 to the right and 100 down. *)
Example scenario_words_moved :
  extract_structured_text
    (page_of_words [box_at 100 100 "A"; box_at 120 100 "B";
                    box_at 100 130 "C"]) default_threshold
  = Some [[box_at 100 100 "A"; box_at 100 130 "C"]; [box_at 120 100 "B"]].
Proof. vm_compute. reflexivity. Qed.

(** C4 at a failing input. Vertical centre distance 30, above the
    threshold 15 and above the horizontal distance 0: the two words come
    back in one line. By [stacked_words_share_a_line] this is so whenever
    the horizontal distance is within the threshold. *)
Theorem stacked_words_are_joined :
  extract_structured_text (page_of_words [column_upper; column_lower])
    default_threshold
  = Some [[column_upper; column_lower]].
Proof. vm_compute. reflexivity. Qed.

(** ** The two distances *)

(** X1. Both distances are non-negative, they do not depend on the order
    of the two words, and a word is at distance zero from itself. *)
Theorem directional_distances_metric (a b : word) :
  0 <= fst (get_directional_distances a b)
  /\ 0 <= snd (get_directional_distances a b)
  /\ get_directional_distances b a = get_directional_distances a b
  /\ fst (get_directional_distances a a) == 0
  /\ snd (get_directional_distances a a) == 0.
Proof.
  split; [apply Qabs_nonneg|]. split; [apply Qabs_nonneg|].
  split; [apply distances_symmetric|].
  unfold get_directional_distances. cbn [fst snd]. unfold Qminus.
  split; rewrite Qplus_opp_r; reflexivity.
Qed.

(** ** The running minima of a scan *)

Lemma dist_le_refl (a : dist) : dist_le a a.
Proof.
  destruct a as [q|]; unfold dist_le; simpl; [|done].
  apply Qltb_ge, Qle_refl.
Qed.

Lemma dist_le_trans (a b c : dist) : dist_le a b -> dist_le b c -> dist_le a c.
Proof.
  unfold dist_le. destruct a as [x|], b as [y|], c as [z|]; simpl;
    try done.
  intros Hxy Hyz. apply Qltb_ge in Hxy, Hyz. apply Qltb_ge.
  by eapply Qle_trans.
Qed.

Lemma dist_ltb_le (a b : dist) : dist_ltb a b = true -> dist_le a b.
Proof.
  unfold dist_le. destruct a as [x|], b as [y|]; simpl; try done.
  intros H. apply Qltb_lt in H. apply Qltb_ge. by apply Qlt_le_weak.
Qed.

(** A step only lowers the minima. *)
Lemma scan_step_lowers (processed : gset nat) (current_word : word)
    (st : scan_state) (c : nat * word) :
  dist_le (min_horizontal_dist (scan_step processed current_word st c))
          (min_horizontal_dist st)
  /\ dist_le (min_vertical_dist (scan_step processed current_word st c))
             (min_vertical_dist st).
Proof.
  destruct c as [j w].
  destruct (scan_step_cases processed current_word st j w)
    as [-> | [(_ & Hc & ->) | (_ & _ & Hv & ->)]].
  - split; apply dist_le_refl.
  - apply andb_true_iff in Hc as [_ Hc].
    split; [by apply dist_ltb_le | apply dist_le_refl].
  - split; [apply dist_le_refl | by apply dist_ltb_le].
Qed.

Lemma scan_fold_lowers (processed : gset nat) (current_word : word)
    (l : list (nat * word)) (st : scan_state) :
  let st' := fold_left (scan_step processed current_word) l st in
  dist_le (min_horizontal_dist st') (min_horizontal_dist st)
  /\ dist_le (min_vertical_dist st') (min_vertical_dist st).
Proof.
  revert st. induction l as [|c l IH]; intros st; cbn [fold_left].
  - split; apply dist_le_refl.
  - destruct (IH (scan_step processed current_word st c)) as [Hh Hv].
    destruct (scan_step_lowers processed current_word st c) as [Hh' Hv'].
    split; eapply dist_le_trans; eauto.
Qed.

(** After its own step a candidate is bounded by the minimum of its
    class. *)
Lemma scan_step_bound (processed : gset nat) (current_word : word)
    (st : scan_state) (j : nat) (w : word) :
  j ∉ processed ->
  let h := fst (get_directional_distances current_word w) in
  let v := snd (get_directional_distances current_word w) in
  let st' := scan_step processed current_word st (j, w) in
  (Qltb h v = true -> dist_le (min_horizontal_dist st') (Fin h))
  /\ (Qltb h v = false -> dist_le (min_vertical_dist st') (Fin v)).
Proof.
  intros Hj. cbv zeta. unfold scan_step, classify.
  rewrite bool_decide_eq_false_2 by done.
  destruct (get_directional_distances current_word w) as [h v].
  cbn [fst snd]. unfold dist_le.
  destruct (Qltb h v) eqn:Ehv; cbn [andb].
  - split; [intros _ | done].
    destruct (dist_ltb (Fin h) (min_horizontal_dist st)) eqn:Eh.
    + cbn. apply Qltb_ge, Qle_refl.
    + by destruct (dist_ltb (Fin v) (min_vertical_dist st)).
  - split; [done | intros _].
    destruct (dist_ltb (Fin v) (min_vertical_dist st)) eqn:Ev; [|done].
    cbn. apply Qltb_ge, Qle_refl.
Qed.

Lemma scan_fold_bound (processed : gset nat) (current_word : word)
    (l : list (nat * word)) (st : scan_state) (j : nat) (w : word) :
  (j, w) ∈ l -> j ∉ processed ->
  let h := fst (get_directional_distances current_word w) in
  let v := snd (get_directional_distances current_word w) in
  let st' := fold_left (scan_step processed current_word) l st in
  (Qltb h v = true -> dist_le (min_horizontal_dist st') (Fin h))
  /\ (Qltb h v = false -> dist_le (min_vertical_dist st') (Fin v)).
Proof.
  intros Hin Hj. cbv zeta. revert st.
  induction l as [|c l IH]; intros st; [by apply elem_of_nil in Hin|].
  cbn [fold_left]. apply elem_of_cons in Hin as [<- | Hin]; [|by apply IH].
  destruct (scan_step_bound processed current_word st j w Hj) as [Hh Hv].
  destruct (scan_fold_lowers processed current_word l
              (scan_step processed current_word st (j, w))) as [Lh Lv].
  split; intros E; eapply dist_le_trans; eauto.
Qed.

(** No closest word, no minimum. *)
Lemma scan_none_no_minimum (words : list word) (processed : gset nat)
    (current_word : word) :
  closest_word (scan words processed current_word) = None ->
  min_horizontal_dist (scan words processed current_word) = Inf
  /\ min_vertical_dist (scan words processed current_word) = Inf.
Proof.
  unfold scan.
  apply (fold_left_invariant
           (fun st => closest_word st = None ->
                      min_horizontal_dist st = Inf
                      /\ min_vertical_dist st = Inf)); [|done].
  intros [j w] st _ Hst.
  destruct (scan_step_cases processed current_word st j w)
    as [-> | [(_ & _ & ->) | (_ & _ & _ & ->)]]; [done | done | done].
Qed.

(** X2. A scan comes back without a closest word exactly when every word
    of the page is already grouped: as long as one word is left, the scan
    proposes a candidate. *)
Theorem scan_finds_none_iff_all_grouped (words : list word)
    (processed : gset nat) (current_word : word) :
  closest_word (scan words processed current_word) = None
  <-> forall j, (j < length words)%nat -> j ∈ processed.
Proof.
  split.
  - intros Hnone j Hj. destruct (decide (j ∈ processed)) as [|Hn]; [done|].
    exfalso. destruct (lookup_lt_is_Some_2 words j Hj) as [w Hw].
    destruct (scan_none_no_minimum words processed current_word Hnone)
      as [Hh Hv].
    pose proof (scan_fold_bound processed current_word (enumerate words)
                  scan_init j w (lookup_enumerate_from words 0 j w Hw) Hn)
      as [Bh Bv].
    fold (scan words processed current_word) in Bh, Bv.
    unfold dist_le in Bh, Bv. rewrite Hh in Bh. rewrite Hv in Bv.
    destruct (Qltb (fst (get_directional_distances current_word w))
                   (snd (get_directional_distances current_word w)));
      [by specialize (Bh eq_refl) | by specialize (Bv eq_refl)].
  - intros Hall. by rewrite scan_nothing_left.
Qed.

(** X3. The running minima bound the ungrouped words from below: a word
    that lies more down than across from the current word is at least
    [min_horizontal_dist] across, every other ungrouped word is at least
    [min_vertical_dist] down. *)
Theorem scan_minima_are_lower_bounds (words : list word)
    (processed : gset nat) (current_word : word) (j : nat) (w : word) :
  words !! j = Some w -> j ∉ processed ->
  let h := fst (get_directional_distances current_word w) in
  let v := snd (get_directional_distances current_word w) in
  let st := scan words processed current_word in
  (h < v -> exists m, min_horizontal_dist st = Fin m /\ m <= h)
  /\ (v <= h -> exists m, min_vertical_dist st = Fin m /\ m <= v).
Proof.
  intros Hw Hj. cbv zeta.
  pose proof (scan_fold_bound processed current_word (enumerate words)
                scan_init j w (lookup_enumerate_from words 0 j w Hw) Hj)
    as [Bh Bv].
  fold (scan words processed current_word) in Bh, Bv. unfold dist_le in *.
  split; intros Hlt.
  - apply Qltb_lt in Hlt. specialize (Bh Hlt).
    destruct (min_horizontal_dist (scan words processed current_word))
      as [m|]; [|done].
    exists m. split; [done|]. by apply Qltb_ge in Bh.
  - apply Qltb_ge in Hlt. specialize (Bv Hlt).
    destruct (min_vertical_dist (scan words processed current_word))
      as [m|]; [|done].
    exists m. split; [done|]. by apply Qltb_ge in Bv.
Qed.

Lemma scan_minima_are_lower_bounds_witness :
  [seed; near_below; far_right] !! 1%nat = Some near_below
  /\ (1%nat ∉ ({[ 0%nat ]} : gset nat))
  /\ ((fst (get_directional_distances seed near_below)
       < snd (get_directional_distances seed near_below) ->
       exists m,
         min_horizontal_dist (scan [seed; near_below; far_right] {[0%nat]} seed)
         = Fin m
         /\ m <= fst (get_directional_distances seed near_below))
      /\ (snd (get_directional_distances seed near_below)
          <= fst (get_directional_distances seed near_below) ->
          exists m,
            min_vertical_dist (scan [seed; near_below; far_right] {[0%nat]} seed)
            = Fin m
            /\ m <= snd (get_directional_distances seed near_below))).
Proof.
  assert (Hn : 1%nat ∉ ({[ 0%nat ]} : gset nat)).
  { intros H. apply elem_of_singleton in H. discriminate. }
  split; [reflexivity|]. split; [exact Hn|].
  exact (scan_minima_are_lower_bounds [seed; near_below; far_right]
           {[ 0%nat ]} seed 1 near_below eq_refl Hn).
Defined.

(** ** How many lines *)

Lemma length_concat_nonempty {A : Type} (ls : list (list A)) :
  Forall (fun l => l ≠ []) ls -> (length ls <= length (concat ls))%nat.
Proof.
  induction 1 as [|l ls Hl _ IH]; simpl; [lia|].
  rewrite length_app. destruct l; [done|]. simpl. lia.
Qed.

Lemma line_ok_nonempty (groups : list (list word)) :
  Forall line_ok groups -> Forall (fun group => group ≠ []) groups.
Proof. intros H. eapply Forall_impl; [exact H|]. by intros g [Hg _]. Qed.

(** X4. No line is returned exactly when the page has no word, and there
    are never more lines than words. *)
Theorem no_groups_iff_no_words (p : page) (threshold : Q) :
  exists groups : list (list word),
    extract_structured_text p threshold = Some groups
    /\ (groups = [] <-> extract_words p = [])
    /\ (length groups <= length (extract_words p))%nat.
Proof.
  destruct (extract_structured_text_spec p threshold)
    as (g & Hg & Hok & Hperm).
  exists g. split; [done|]. split; [split|].
  - intros ->. simpl in Hperm. by apply Permutation_nil in Hperm.
  - intros Hw. unfold extract_structured_text in Hg. rewrite Hw in Hg.
    by injection Hg as <-.
  - rewrite <- (Permutation_length Hperm).
    apply length_concat_nonempty. by apply line_ok_nonempty.
Qed.

(** X5. A page with a single word gives one line holding that word,
    whatever the threshold. *)
Theorem single_word_single_group (p : page) (threshold : Q) (w : word) :
  extract_words p = [w] ->
  extract_structured_text p threshold = Some [[w]].
Proof.
  intros Hw.
  destruct (extract_structured_text_spec p threshold)
    as (g & Hg & Hok & Hperm).
  rewrite Hg. f_equal. rewrite Hw in Hperm.
  apply line_ok_nonempty in Hok.
  pose proof (Permutation_length Hperm) as Hlen. simpl in Hlen.
  destruct g as [|g0 g]; [done|].
  inversion Hok as [|? ? Hg0 Hrest]; subst.
  simpl in Hlen, Hperm. rewrite length_app in Hlen.
  pose proof (length_concat_nonempty g Hrest) as Hg'.
  destruct g0 as [|x g0]; [done|]. simpl in Hlen.
  destruct g0; [|simpl in Hlen; lia].
  destruct g as [|g1 g]; [|cbn [length] in Hg', Hlen; lia].
  simpl in Hperm. apply Permutation_singleton_r in Hperm.
  by injection Hperm as ->.
Qed.

Lemma single_word_single_group_witness :
  extract_words (page_of_words [row_left]) = [row_left]
  /\ extract_structured_text (page_of_words [row_left]) default_threshold
     = Some [[row_left]].
Proof.
  split; [reflexivity|].
  exact (single_word_single_group (page_of_words [row_left])
           default_threshold row_left eq_refl).
Defined.

(** X6. Two words come back as one line exactly when the second lies
    more down than across from the first and their horizontal distance is
    within the threshold; otherwise they are two lines. *)
Theorem two_words_share_a_line_iff (a b : word) (threshold : Q) :
  exists groups : list (list word),
    extract_structured_text (page_of_words [a; b]) threshold = Some groups
    /\ (length groups = 1%nat
        <-> fst (get_directional_distances a b)
              < snd (get_directional_distances a b)
            /\ fst (get_directional_distances a b) <= threshold)
    /\ (length groups = 1%nat \/ length groups = 2%nat).
Proof.
  rewrite two_words_on_a_page. eexists. split; [reflexivity|].
  assert (Hl : length (List.map (fun w => [w]) (sort_reading_order [a; b]))
               = 2%nat).
  { rewrite length_map.
    exact (Permutation_length (sorted_perm key_top_x0 pair_ltb [a; b])). }
  destruct (Qltb (fst (get_directional_distances a b))
                 (snd (get_directional_distances a b))) eqn:Ehv;
    cbn [andb].
  - destruct (Qltb threshold (fst (get_directional_distances a b))) eqn:Eth;
      cbn [negb].
    + rewrite Hl. split; [|by right]. split; [discriminate|].
      intros [_ Hle]. apply Qltb_lt in Eth.
      exfalso. exact (Qlt_not_le _ _ Eth Hle).
    + split; [|by left]. split; [|done]. intros _.
      split; [by apply Qltb_lt | by apply Qltb_ge].
  - rewrite Hl. split; [|by right]. split; [discriminate|].
    intros [Hlt _]. apply Qltb_lt in Hlt. congruence.
Qed.

(** ** A threshold below zero *)

Lemma scan_minima_nonneg (words : list word) (processed : gset nat)
    (current_word : word) :
  dist_nonneg (min_horizontal_dist (scan words processed current_word))
  /\ dist_nonneg (min_vertical_dist (scan words processed current_word)).
Proof.
  unfold scan.
  apply (fold_left_invariant
           (fun st => dist_nonneg (min_horizontal_dist st)
                      /\ dist_nonneg (min_vertical_dist st)));
    [|by split].
  intros [j w] st _ [Hh Hv].
  destruct (scan_step_cases processed current_word st j w)
    as [-> | [(_ & _ & ->) | (_ & _ & _ & ->)]]; [done | |];
    (split; [|]); try done; apply Qabs_nonneg.
Qed.

Lemma extend_group_negative (fuel : nat) (words : list word) (threshold : Q)
    (current_word : word) (current_group : list word)
    (processed : gset nat) (groups : list (list word)) :
  threshold < 0 ->
  extend_group (S fuel) words threshold current_word current_group
    processed groups
  = Some (finalize current_group groups, processed).
Proof.
  intros Hneg. rewrite extend_group_step. cbv zeta.
  destruct (closest_word (scan words processed current_word)); [|done].
  destruct (scan_minima_nonneg words processed current_word) as [Hh Hv].
  assert (Hgt : dist_gtb
            (dist_min (min_horizontal_dist (scan words processed current_word))
                      (min_vertical_dist (scan words processed current_word)))
            threshold = true); [|by rewrite Hgt].
  unfold dist_min.
  assert (Hd : forall d, dist_nonneg d -> dist_gtb d threshold = true).
  { intros [q|] Hq; [|done]. apply Qltb_lt. by eapply Qlt_le_trans. }
  destruct (dist_ltb _ _); by apply Hd.
Qed.

Lemma group_loop_negative (fuel : nat) (words : list word) (threshold : Q)
    (l : list word) :
  threshold < 0 ->
  forall (k : nat) (processed : gset nat) (groups : list (list word)),
    (forall j, j ∈ processed -> (j < k)%nat) ->
    group_loop (S fuel) words threshold (enumerate_from k l) processed groups
    = Some (groups ++ List.map (fun w => [w]) l).
Proof.
  intros Hneg. induction l as [|w l IH]; intros k P gs HP;
    cbn [enumerate_from List.map].
  - by rewrite app_nil_r.
  - rewrite group_loop_cons.
    rewrite bool_decide_eq_false_2.
    2:{ intros Hk. apply HP in Hk. lia. }
    rewrite extend_group_negative by done.
    rewrite IH.
    + cbn [finalize]. by rewrite <- app_assoc.
    + intros j [Hj | Hj]%elem_of_union.
      * apply elem_of_singleton in Hj. lia.
      * apply HP in Hj. lia.
Qed.

(** X7. With a threshold below zero no word ever joins another: every
    word is a line of its own, and the lines come in reading order (top
    edge first, then left edge). *)
Theorem negative_threshold_splits_every_word (p : page) (threshold : Q) :
  threshold < 0 ->
  extract_structured_text p threshold
  = Some (List.map (fun w => [w]) (sort_reading_order (extract_words p))).
Proof.
  intros Hneg. unfold extract_structured_text.
  destruct (extract_words p) as [|w ws] eqn:Hw; [done|].
  unfold enumerate.
  rewrite (group_loop_negative _ _ threshold _ Hneg 0 ∅ []); [done|].
  intros j Hj. by apply not_elem_of_empty in Hj.
Qed.

Lemma negative_threshold_splits_every_word_witness :
  (-1) < 0
  /\ extract_structured_text
       (page_of_words [column_lower; column_upper]) (-1)
     = Some (List.map (fun w => [w])
               (sort_reading_order [column_lower; column_upper])).
Proof.
  split; [reflexivity|].
  exact (negative_threshold_splits_every_word
           (page_of_words [column_lower; column_upper]) (-1) eq_refl).
Defined.

(** ** The first line *)

(** Whatever a run of the extension loop returns, the first line it
    appends holds the words the current group had at the start. *)
Lemma extend_group_first (words : list word) (threshold : Q) (fuel : nat) :
  forall (current_word : word) (current_group : list word)
         (processed processed' : gset nat) (groups groups' : list (list word)),
    current_group ≠ [] ->
    extend_group fuel words threshold current_word current_group
      processed groups = Some (groups', processed') ->
    exists g rest,
      groups' = groups ++ g :: rest /\ forall w, w ∈ current_group -> w ∈ g.
Proof.
  induction fuel as [|fuel IH]; intros cur cg P P' gs gs' Hcg Hrun;
    [discriminate|].
  assert (Hstop : Some (finalize cg gs, P) = Some (gs', P') ->
    exists g rest, gs' = gs ++ g :: rest /\ forall w, w ∈ cg -> w ∈ g).
  { intros [= <- _]. rewrite finalize_nonempty by done.
    exists (sort_by_x0 cg), []. split; [done|].
    intros w Hw. by rewrite (sorted_perm x0 Qltb cg). }
  rewrite extend_group_step in Hrun. cbv zeta in Hrun.
  destruct (closest_word (scan words P cur)) as [cw|]; [|by apply Hstop].
  destruct (dist_gtb _ threshold); [by apply Hstop|].
  destruct (is_horizontal (scan words P cur)).
  - destruct (IH cw (cg ++ [cw]) _ _ _ _ ltac:(by destruct cg) Hrun)
      as (g & rest & -> & Hin).
    exists g, rest. split; [done|].
    intros w Hw. apply Hin. apply elem_of_app. by left.
  - destruct (IH cw [cw] _ _ _ _ ltac:(done) Hrun) as (g & rest & -> & _).
    exists (sort_by_x0 cg), (g :: rest). split; [by rewrite <- app_assoc|].
    intros w Hw. by rewrite (sorted_perm x0 Qltb cg).
Qed.

(** The outer loop only appends to [groups]. *)
Lemma group_loop_appends (fuel : nat) (words : list word) (threshold : Q)
    (todo : list (nat * word)) :
  forall (processed : gset nat) (groups result : list (list word)),
    group_loop fuel words threshold todo processed groups = Some result ->
    exists new, result = groups ++ new.
Proof.
  induction todo as [|[i cur] todo IH]; intros P gs r Hrun.
  - injection Hrun as <-. exists []. by rewrite app_nil_r.
  - rewrite group_loop_cons in Hrun.
    destruct (bool_decide (i ∈ P)); [by eapply IH|].
    destruct (extend_group fuel words threshold cur [cur] ({[i]} ∪ P) gs)
      as [[gs1 P1]|] eqn:Hext; [|discriminate].
    destruct (extend_group_first _ _ _ cur [cur] _ _ _ _ ltac:(done) Hext)
      as (g & rest & -> & _).
    destruct (IH _ _ _ Hrun) as (new & ->).
    exists (g :: rest ++ new). by rewrite <- !app_assoc.
Qed.

(** X8. The first line returned holds the first word in reading order,
    the one with the least top edge and, among those, the least left
    edge. *)
Theorem first_group_holds_first_word (p : page) (threshold : Q)
    (w : word) (ws : list word) :
  sort_reading_order (extract_words p) = w :: ws ->
  exists g rest,
    extract_structured_text p threshold = Some (g :: rest) /\ w ∈ g.
Proof.
  intros Hsort.
  destruct (extract_structured_text_total p threshold) as [r Hr].
  rewrite Hr. unfold extract_structured_text in Hr.
  destruct (extract_words p) as [|w0 ws0] eqn:Hw; [discriminate|].
  rewrite Hsort in Hr. unfold enumerate in Hr. cbn [enumerate_from] in Hr.
  rewrite group_loop_cons in Hr.
  rewrite bool_decide_eq_false_2 in Hr by apply not_elem_of_empty.
  destruct (extend_group _ _ threshold w [w] _ []) as [[gs1 P1]|] eqn:Hext;
    [|discriminate].
  destruct (extend_group_first _ _ _ w [w] _ _ _ _ ltac:(done) Hext)
    as (g & rest & -> & Hin).
  destruct (group_loop_appends _ _ _ _ _ _ _ Hr) as (new & ->).
  exists g, (rest ++ new). split; [done|].
  apply Hin. apply list_elem_of_here.
Qed.

Lemma first_group_holds_first_word_witness :
  sort_reading_order
    (extract_words (page_of_words [far_right; near_below; seed]))
  = seed :: [near_below; far_right]
  /\ exists g rest,
    extract_structured_text
      (page_of_words [far_right; near_below; seed]) default_threshold
    = Some (g :: rest)
    /\ seed ∈ g.
Proof.
  split; [reflexivity|].
  exact (first_group_holds_first_word
           (page_of_words [far_right; near_below; seed]) default_threshold
           seed [near_below; far_right] eq_refl).
Defined.

(** * Properties of the orchestrator *)

(** ** Stripping *)

Lemma lstrip_whitespace_only (s : string) :
  whitespace_only s = true -> lstrip s = EmptyString.
Proof.
  induction s as [|c s IH]; simpl; [done|].
  intros [Hc Hs]%andb_true_iff. rewrite Hc. by apply IH.
Qed.

Lemma strip_whitespace_only (s : string) :
  whitespace_only s = true -> strip s = EmptyString.
Proof. intros H. unfold strip. by rewrite lstrip_whitespace_only. Qed.

Lemma has_native_text_blank (t : string) :
  whitespace_only t = true -> has_native_text (Some t) = false.
Proof.
  intros H. unfold has_native_text.
  rewrite strip_whitespace_only by done. simpl. apply andb_false_r.
Qed.

(** ** Pages whose calls return *)

Lemma pages_loop_cons (i : nat) (p : pdf_page) (todo : list (nat * pdf_page))
    (full_text : string) :
  pages_loop ((i, p) :: todo) full_text
  = r ← process_page full_text i p;
    match r with
    | Raises e => Some (Raises e)
    | Returns full_text' => pages_loop todo full_text'
    end.
Proof. reflexivity. Qed.

Lemma process_page_returning (full_text : string) (i : nat) (p : page) :
  process_page full_text i (returning p)
  = if has_native_text (extract_text p)
    then Some (Returns (full_text +:+ nl +:+ header_line i +:+ nl
                          +:+ strip (default EmptyString (extract_text p))
                          +:+ nl))
    else
      groups ← extract_structured_text p default_threshold;
      Some (Returns (fallback_section full_text i groups)).
Proof. by destruct p. Qed.

Lemma process_page_calls_return (full_text : string) (i : nat)
    (lp : pdf_page) (p : page) :
  calls_return lp p ->
  process_page full_text i lp = process_page full_text i (returning p).
Proof.
  intros [Ht Hw]. rewrite process_page_returning.
  unfold process_page. rewrite Ht.
  destruct (has_native_text (extract_text p)) eqn:Hn; [done|].
  rewrite (Hw eq_refl). by destruct p.
Qed.

Lemma pages_loop_calls_return (pages : list pdf_page) (ps : list page) :
  Forall2 calls_return pages ps ->
  forall (k : nat) (t : string),
    pages_loop (enumerate_from k pages) t
    = pages_loop (enumerate_from k (List.map returning ps)) t.
Proof.
  induction 1 as [|lp p pages ps Hp _ IH]; intros k t; [done|].
  cbn [List.map enumerate_from]. rewrite !pages_loop_cons.
  rewrite (process_page_calls_return t k lp p Hp).
  destruct (process_page t k (returning p)) as [[t'|e]|]; simpl; [|done|done].
  apply IH.
Qed.

(** A page that gives a text has had its calls return. *)
Lemma process_page_returns_calls (full_text : string) (i : nat)
    (lp : pdf_page) (t' : string) :
  process_page full_text i lp = Some (Returns t') ->
  exists p, calls_return lp p.
Proof.
  unfold process_page. intros Hrun.
  destruct (call_extract_text lp) as [text|e] eqn:Ht; [|discriminate].
  destruct (has_native_text text) eqn:Hn.
  - exists (Page text []). split; [done|]. cbn [extract_text]. congruence.
  - destruct (call_extract_words lp) as [words|e] eqn:Hw; [|discriminate].
    exists (Page text words). by split.
Qed.

Lemma pages_loop_returns_calls (pages : list pdf_page) :
  forall (k : nat) (t t' : string),
    pages_loop (enumerate_from k pages) t = Some (Returns t') ->
    exists ps, Forall2 calls_return pages ps.
Proof.
  induction pages as [|lp pages IH]; intros k t t' Hrun.
  - exists []. constructor.
  - cbn [enumerate_from] in Hrun. rewrite pages_loop_cons in Hrun.
    destruct (process_page t k lp) as [[t1|e]|] eqn:Hp; simpl in Hrun;
      [|discriminate|discriminate].
    destruct (process_page_returns_calls _ _ _ _ Hp) as [p Hc].
    destruct (IH _ _ _ Hrun) as [ps Hps].
    exists (p :: ps). by constructor.
Qed.

(** ** Fallback and failure *)

(** C7. A page whose native text is missing, empty or only whitespace is
    handed to the geometric reconstruction with the default threshold, and
    what the page adds to the output, wherever it stands in the document, is
    the section built from the returned groups, not the native text. When
    the word extraction of the fallback raises, the exception leaves the
    page loop and nothing of the native text is kept. *)
Theorem blank_page_uses_geometric_fallback (full_text : string) (i : nat)
    (p : pdf_page) (later_pages : list pdf_page) (text : option string) :
  call_extract_text p = Returns text ->
  match text with
  | None => True
  | Some t => whitespace_only t = true
  end ->
  (forall words,
     call_extract_words p = Returns words ->
     exists groups : list (list word),
       extract_structured_text (Page text words) default_threshold
       = Some groups
       /\ process_page full_text i p
          = Some (Returns (fallback_section full_text i groups))
       /\ pages_loop (enumerate_from i (p :: later_pages)) full_text
          = pages_loop (enumerate_from (S i) later_pages)
              (fallback_section full_text i groups))
  /\ (forall e,
        call_extract_words p = Raises e ->
        process_page full_text i p = Some (Raises e)
        /\ pages_loop (enumerate_from i (p :: later_pages)) full_text
           = Some (Raises e)).
Proof.
  intros Htext Hblank.
  assert (Hno : has_native_text text = false).
  { destruct text as [t|]; [|done]. by apply has_native_text_blank. }
  split.
  - intros words Hwords.
    destruct (extract_structured_text_total (Page text words)
                default_threshold) as [g Hg].
    exists g. split; [done|].
    assert (Hpage : process_page full_text i p
                    = Some (Returns (fallback_section full_text i g))).
    { unfold process_page. by rewrite Htext, Hno, Hwords, Hg. }
    split; [done|]. cbn [enumerate_from]. by rewrite pages_loop_cons, Hpage.
  - intros e Hwords.
    assert (Hpage : process_page full_text i p = Some (Raises e)).
    { unfold process_page. by rewrite Htext, Hno, Hwords. }
    split; [done|]. cbn [enumerate_from]. by rewrite pages_loop_cons, Hpage.
Qed.

Lemma blank_page_uses_geometric_fallback_witness :
  call_extract_text (returning three_spaces_page) = Returns (Some "   ")
  /\ whitespace_only "   " = true
  /\ (forall words,
        call_extract_words (returning three_spaces_page) = Returns words ->
        exists groups : list (list word),
          extract_structured_text (Page (Some "   ") words) default_threshold
          = Some groups
          /\ process_page EmptyString 0 (returning three_spaces_page)
             = Some (Returns (fallback_section EmptyString 0 groups))
          /\ pages_loop (enumerate_from 0 [returning three_spaces_page])
               EmptyString
             = pages_loop (enumerate_from 1 [])
                 (fallback_section EmptyString 0 groups))
  /\ (forall e,
        call_extract_words (returning three_spaces_page) = Raises e ->
        process_page EmptyString 0 (returning three_spaces_page)
        = Some (Raises e)
        /\ pages_loop (enumerate_from 0 [returning three_spaces_page])
             EmptyString
           = Some (Raises e)).
Proof.
  split; [reflexivity|]. split; [reflexivity|].
  exact (blank_page_uses_geometric_fallback EmptyString 0
           (returning three_spaces_page) [] (Some "   ") eq_refl eq_refl).
Defined.

(** C8, refuted. The document exists and may not be read: opening it
    raises an exception that is not [FileNotFoundError], and the call
    returns the generic message, not the fixed one. *)
Lemma unreadable_path_gets_generic_message :
  locked_documents "locked.pdf"
  = Raises (OtherException "[Errno 13] Permission denied: 'locked.pdf'")
  /\ extract_text_from_pdf locked_documents "locked.pdf"
     = Some (Returns ("Error: An unexpected issue occurred: "
                      +:+ "[Errno 13] Permission denied: 'locked.pdf'"))
  /\ extract_text_from_pdf locked_documents "locked.pdf"
     ≠ Some (Returns
         "Error: The file was not found. Please provide the correct file path.").
Proof.
  split; [reflexivity|]. split; [reflexivity|]. vm_compute. discriminate.
Qed.

(** C8, as the code has it. When opening the document raises an exception
    of class [Exception], the call returns a string as its ordinary result
    and nothing is raised to the caller: the fixed message when the
    exception is [FileNotFoundError], the generic message followed by the
    text of the exception otherwise. *)
Theorem missing_file_returns_message
    (pdfplumber_open : string -> outcome (list pdf_page)) (pdf_path : string)
    (e : exn) :
  pdfplumber_open pdf_path = Raises e ->
  e ≠ NotAnException ->
  exists message,
    extract_text_from_pdf pdfplumber_open pdf_path = Some (Returns message)
    /\ (e = FileNotFoundError ->
        message
        = "Error: The file was not found. Please provide the correct file path.")
    /\ (forall str_e,
          e = OtherException str_e ->
          message = "Error: An unexpected issue occurred: " +:+ str_e).
Proof.
  intros Hopen He. unfold extract_text_from_pdf, try_block.
  rewrite Hopen. destruct e as [|str_e|]; [| |done]; simpl.
  - eexists. split; [done|]. split; [done|]. discriminate.
  - eexists. split; [done|]. split; [discriminate|]. by intros ? [= <-].
Qed.

Lemma missing_file_returns_message_witness :
  no_documents "missing.pdf" = Raises FileNotFoundError
  /\ FileNotFoundError ≠ NotAnException
  /\ exists message,
    extract_text_from_pdf no_documents "missing.pdf" = Some (Returns message)
    /\ (FileNotFoundError = FileNotFoundError ->
        message
        = "Error: The file was not found. Please provide the correct file path.")
    /\ (forall str_e,
          FileNotFoundError = OtherException str_e ->
          message = "Error: An unexpected issue occurred: " +:+ str_e).
Proof.
  assert (Hne : FileNotFoundError ≠ NotAnException) by discriminate.
  split; [reflexivity|]. split; [exact Hne|].
  exact (missing_file_returns_message no_documents "missing.pdf"
           FileNotFoundError eq_refl Hne).
Defined.

(** ** Strings, lines and header lines *)

Local Arguments String.append !_ _ : simpl nomatch.

Lemma append_assoc (a b c : string) : (a +:+ b) +:+ c = a +:+ b +:+ c.
Proof. induction a as [|x a IH]; simpl; [done | by f_equal]. Qed.

Lemma append_nil_r (a : string) : a +:+ EmptyString = a.
Proof. induction a as [|x a IH]; simpl; [done | by f_equal]. Qed.

Lemma lines_not_nil (s : string) : lines s ≠ [].
Proof.
  destruct s as [|c s]; simpl; [done|].
  destruct (Ascii.eqb c newline); [done|]. by destruct (lines s).
Qed.

Lemma lines_app_nl (a b : string) :
  lines (a +:+ nl +:+ b) = lines a ++ lines b.
Proof.
  change (nl +:+ b) with (String newline b).
  induction a as [|c a IH]; simpl; [done|].
  destruct (Ascii.eqb c newline); [by rewrite IH|].
  rewrite IH. pose proof (lines_not_nil a). by destruct (lines a).
Qed.

Lemma header_numbers_app_nl (a b : string) :
  header_numbers (a +:+ nl +:+ b) = header_numbers a ++ header_numbers b.
Proof. unfold header_numbers. by rewrite lines_app_nl, omap_app. Qed.

Lemma header_numbers_empty : header_numbers EmptyString = [].
Proof. reflexivity. Qed.

Lemma header_numbers_nl_end (a : string) :
  header_numbers (a +:+ nl) = header_numbers a.
Proof.
  rewrite <- (append_nil_r nl), header_numbers_app_nl, header_numbers_empty.
  apply app_nil_r.
Qed.

(** A line appended to a text that ends a line. *)
Lemma header_numbers_add_line (a c : string) :
  header_numbers ((a +:+ nl) +:+ c +:+ nl)
  = header_numbers (a +:+ nl) ++ header_numbers c.
Proof.
  rewrite append_assoc, header_numbers_app_nl.
  by rewrite !header_numbers_nl_end.
Qed.

Lemma lines_no_newline (s : string) : no_newline s = true -> lines s = [s].
Proof.
  induction s as [|c s IH]; simpl; [done|].
  intros [Hc Hs]%andb_true_iff. apply negb_true_iff in Hc.
  rewrite Hc, (IH Hs). done.
Qed.

Lemma no_newline_app (a b : string) :
  no_newline (a +:+ b) = no_newline a && no_newline b.
Proof.
  induction a as [|c a IH]; simpl; [done|].
  by rewrite IH, andb_assoc.
Qed.

Lemma string_of_uint_no_newline (u : Decimal.uint) :
  no_newline (NilEmpty.string_of_uint u) = true.
Proof. induction u; simpl; done. Qed.

Lemma parse_digits_string_of_uint (u : Decimal.uint) :
  parse_digits (NilEmpty.string_of_uint u +:+ " ---")
  = (NilEmpty.string_of_uint u, " ---").
Proof. induction u; simpl; rewrite ?IHu; done. Qed.

Lemma to_uint_not_Nil (n : nat) : Nat.to_uint n ≠ Decimal.Nil.
Proof.
  rewrite <- (DecimalNat.Unsigned.of_to n) at 1.
  rewrite DecimalNat.Unsigned.to_of. apply DecimalFacts.unorm_nonnil.
Qed.

Lemma str_of_nat_nonempty (n : nat) : nonempty (str_of_nat n) = true.
Proof.
  unfold str_of_nat. pose proof (to_uint_not_Nil n).
  by destruct (Nat.to_uint n).
Qed.

Lemma parse_header_header_line (i : nat) :
  parse_header (header_line i) = Some (i + 1)%nat.
Proof.
  unfold parse_header, header_line.
  pose proof (str_of_nat_nonempty (i + 1)) as Hne.
  pose proof (DecimalNat.Unsigned.of_to (i + 1)) as Hof.
  unfold str_of_nat in *. set (u := Nat.to_uint (i + 1)) in *. clearbody u.
  change (strip_prefix "--- Page "
            ("--- Page " +:+ NilEmpty.string_of_uint u +:+ " ---"))
    with (Some (NilEmpty.string_of_uint u +:+ " ---")).
  cbv beta iota. rewrite parse_digits_string_of_uint, Hne.
  change (String.eqb " ---" " ---") with true. cbv beta iota.
  rewrite NilEmpty.usu. simpl. by rewrite Hof.
Qed.

Lemma header_numbers_header_line (i : nat) :
  header_numbers (header_line i) = [(i + 1)%nat].
Proof.
  unfold header_numbers. rewrite lines_no_newline.
  - simpl. by rewrite parse_header_header_line.
  - unfold header_line, str_of_nat.
    rewrite !no_newline_app, string_of_uint_no_newline. reflexivity.
Qed.

(** ** The shape of the accumulated text *)

Lemma ends_tight_app (a z : string) : ends_tight z -> ends_tight (a +:+ z).
Proof.
  intros (x & c & -> & Hc). exists (a +:+ x), c.
  by rewrite append_assoc.
Qed.

Lemma ends_tight_line (x : string) (c : ascii) :
  isspace c = false -> ends_tight ((x +:+ String c EmptyString) +:+ nl).
Proof. intros Hc. exists x, c. by rewrite append_assoc. Qed.

Lemma starts_with_header_app (t z : string) :
  starts_with_header t -> starts_with_header (t +:+ z).
Proof. intros [r ->]. by exists (r +:+ z). Qed.

Lemma rstrip_ends (s : string) :
  rstrip s = EmptyString
  \/ exists x c, rstrip s = x +:+ String c EmptyString /\ isspace c = false.
Proof.
  induction s as [|d s IH]; simpl; [by left|].
  destruct IH as [-> | (x & c & -> & Hc)].
  - destruct (isspace d) eqn:Hd; [by left|].
    right. by exists EmptyString, d.
  - right. exists (String d x), c. split; [|done].
    by destruct x.
Qed.

Lemma strip_ends (s : string) :
  strip s = EmptyString
  \/ exists x c, strip s = x +:+ String c EmptyString /\ isspace c = false.
Proof. apply rstrip_ends. Qed.

Lemma rstrip_tight (x : string) (c : ascii) :
  isspace c = false ->
  rstrip (x +:+ String c nl) = x +:+ String c EmptyString.
Proof.
  intros Hc. induction x as [|d x IH]; simpl.
  - by rewrite Hc.
  - rewrite IH. by destruct x.
Qed.

(** Stripping a text of that shape removes its first and its last
    newline, and nothing else. *)
Lemma strip_framed (t : string) :
  starts_with_header t -> ends_tight t ->
  t = nl +:+ strip t +:+ nl.
Proof.
  intros [r Hr] (x & c & Hx & Hc). unfold strip.
  rewrite Hr at 2. simpl lstrip.
  destruct x as [|d x].
  { rewrite Hx in Hr. simpl in Hr. inversion Hr. }
  rewrite Hx in Hr. simpl in Hr. injection Hr as Hd Hrest. subst d.
  rewrite <- Hrest, rstrip_tight by done.
  rewrite Hx. simpl. by rewrite append_assoc.
Qed.

Lemma header_numbers_strip_framed (t : string) :
  starts_with_header t -> ends_tight t ->
  header_numbers (strip t) = header_numbers t.
Proof.
  intros Hs He. rewrite (strip_framed t Hs He) at 2.
  change (nl +:+ strip t +:+ nl) with (EmptyString +:+ nl +:+ strip t +:+ nl).
  rewrite header_numbers_app_nl, header_numbers_nl_end. done.
Qed.

Lemma ends_tight_ends_nl (t : string) :
  ends_tight t -> exists a, t = a +:+ nl.
Proof.
  intros (x & c & -> & _). exists (x +:+ String c EmptyString).
  by rewrite append_assoc.
Qed.

(** ** One group, one page, all pages *)

Lemma append_group_spec (acc : string) (group : list word) :
  header_numbers (strip (join " " (List.map text group))) = [] ->
  ends_tight acc ->
  ends_tight (append_group acc group)
  /\ header_numbers (append_group acc group) = header_numbers acc
  /\ exists z, append_group acc group = acc +:+ z.
Proof.
  intros Hfree Hacc. unfold append_group.
  set (group_text := strip (join " " (List.map text group))) in *.
  destruct (nonempty group_text) eqn:Hne.
  - destruct (strip_ends (join " " (List.map text group)))
      as [Hnil | (x & c & Hx & Hc)]; fold group_text in Hnil || fold group_text in Hx.
    { rewrite Hnil in Hne. discriminate. }
    split; [|split].
    + apply ends_tight_app. rewrite Hx. by apply ends_tight_line.
    + destruct (ends_tight_ends_nl acc Hacc) as [a ->].
      rewrite header_numbers_add_line, Hfree. apply app_nil_r.
    + by exists (group_text +:+ nl).
  - split; [done|]. split; [done|]. exists EmptyString.
    by rewrite append_nil_r.
Qed.

Lemma fold_append_group_spec (groups : list (list word)) (acc : string) :
  Forall (fun group =>
            header_numbers (strip (join " " (List.map text group))) = [])
         groups ->
  ends_tight acc ->
  ends_tight (fold_left append_group groups acc)
  /\ header_numbers (fold_left append_group groups acc) = header_numbers acc
  /\ exists z, fold_left append_group groups acc = acc +:+ z.
Proof.
  revert acc. induction groups as [|g groups IH]; intros acc Hfree Hacc; simpl.
  - split; [done|]. split; [done|]. exists EmptyString.
    by rewrite append_nil_r.
  - inversion Hfree as [|? ? Hg Hrest]; subst.
    destruct (append_group_spec acc g Hg Hacc) as (He & Hn & z & Hz).
    destruct (IH (append_group acc g) Hrest He) as (He' & Hn' & z' & Hz').
    split; [done|]. split; [by rewrite Hn'|].
    exists (z +:+ z'). by rewrite Hz', Hz, append_assoc.
Qed.

(** The header of a page, appended to any text. *)
Lemma header_appended (t : string) (i : nat) :
  t = EmptyString \/ starts_with_header t ->
  let t' := (t +:+ nl +:+ header_line i) +:+ nl in
  starts_with_header t' /\ ends_tight t'
  /\ header_numbers t' = header_numbers t ++ [(i + 1)%nat].
Proof.
  intros Ht t'. split; [|split].
  - destruct Ht as [-> | Ht].
    + unfold t', header_line. simpl. eexists. reflexivity.
    + unfold t'. rewrite append_assoc. by apply starts_with_header_app.
  - unfold t'. rewrite append_assoc. apply ends_tight_app.
    exists (nl +:+ "--- Page " +:+ str_of_nat (i + 1) +:+ " --"), "-"%char.
    split; [|done]. unfold header_line.
    by rewrite !append_assoc.
  - unfold t'. rewrite header_numbers_nl_end, header_numbers_app_nl.
    by rewrite header_numbers_header_line.
Qed.

(** A line of content appended under a header or under earlier lines. *)
Lemma line_appended (base c : string) :
  starts_with_header base -> ends_tight base ->
  header_numbers c = [] ->
  (exists x ch, c = x +:+ String ch EmptyString /\ isspace ch = false) ->
  let t' := base +:+ c +:+ nl in
  starts_with_header t' /\ ends_tight t'
  /\ header_numbers t' = header_numbers base.
Proof.
  intros Hs He Hfree (x & ch & Hx & Hch) t'. split; [|split].
  - by apply starts_with_header_app.
  - apply ends_tight_app. rewrite Hx. by apply ends_tight_line.
  - destruct (ends_tight_ends_nl base He) as [a ->]. unfold t'.
    rewrite header_numbers_add_line, Hfree. apply app_nil_r.
Qed.

Lemma process_page_spec (t : string) (i : nat) (p : page) :
  content_free_of_headers p ->
  t = EmptyString \/ starts_with_header t ->
  exists t',
    process_page t i (returning p) = Some (Returns t')
    /\ starts_with_header t' /\ ends_tight t'
    /\ header_numbers t' = header_numbers t ++ [(i + 1)%nat].
Proof.
  intros Hfree Ht.
  destruct (header_appended t i Ht) as (Hs & He & Hn).
  set (base := (t +:+ nl +:+ header_line i) +:+ nl) in *.
  rewrite process_page_returning. unfold content_free_of_headers in *.
  destruct (has_native_text (extract_text p)) eqn:Hnat.
  - destruct (extract_text p) as [txt|]; [|discriminate].
    cbn [default] in *.
    exists (base +:+ strip txt +:+ nl).
    split; [unfold base; by rewrite !append_assoc|].
    rewrite <- Hn. apply line_appended; try done.
    apply andb_true_iff in Hnat as [_ Hlen].
    destruct (strip_ends txt) as [Hnil | H]; [|exact H].
    rewrite Hnil in Hlen. discriminate.
  - destruct (extract_structured_text_total p default_threshold) as [g Hg].
    rewrite Hg. simpl. specialize (Hfree g Hg).
    destruct g as [|g0 g].
    + exists (base +:+ "[No text found]" +:+ nl).
      split; [unfold base, fallback_section; by rewrite !append_assoc|].
      rewrite <- Hn. apply line_appended; try done.
      by exists "[No text found", "]"%char.
    + exists (fold_left append_group (g0 :: g) base).
      split; [unfold base, fallback_section; by rewrite !append_assoc|].
      destruct (fold_append_group_spec (g0 :: g) base Hfree He)
        as (He' & Hn' & z & Hz).
      split; [rewrite Hz; by apply starts_with_header_app|].
      split; [done|]. by rewrite Hn', Hn.
Qed.

Lemma pages_loop_spec (pages : list page) :
  Forall content_free_of_headers pages ->
  forall (k : nat) (t : string),
    t = EmptyString \/ (starts_with_header t /\ ends_tight t) ->
    header_numbers t = seq 1 k ->
    exists t',
      pages_loop (enumerate_from k (List.map returning pages)) t
      = Some (Returns t')
      /\ (t' = EmptyString \/ (starts_with_header t' /\ ends_tight t'))
      /\ header_numbers t' = seq 1 (k + length pages).
Proof.
  induction 1 as [|p pages Hp Hps IH]; intros k t Ht Hn;
    cbn [List.map enumerate_from length].
  - exists t. rewrite Nat.add_0_r. done.
  - rewrite pages_loop_cons.
    destruct (process_page_spec t k p Hp) as (t1 & -> & Hs & He & Hn1).
    { destruct Ht as [->|[Ht _]]; [by left | by right]. }
    simpl. destruct (IH (S k) t1) as (t' & -> & Ht' & Hn').
    + right. done.
    + rewrite Hn1, Hn, Nat.add_1_r. symmetry. apply seq_S.
    + exists t'. split; [done|]. split; [done|].
      by replace (k + S (length pages))%nat with (S k + length pages)%nat
        by lia.
Qed.

(** ** The headers of the returned text *)

Lemma returning_calls_return (p : page) : calls_return (returning p) p.
Proof. by split. Qed.

Lemma Forall2_returning (ps : list page) :
  Forall2 calls_return (List.map returning ps) ps.
Proof.
  induction ps as [|p ps IH]; constructor; [apply returning_calls_return|done].
Qed.

(** C9, refuted, in two ways. A document of one page that opens, the page
    quoting a header: the returned text holds two header lines, numbered 1
    and 2. A document of two pages that opens, the second page raising when
    its text is extracted: the returned text is the error message and holds
    no header line. *)
Lemma header_count_can_differ :
  (one_page_document "doc.pdf" = Returns [returning page_quoting_a_header]
   /\ exists out,
     extract_text_from_pdf one_page_document "doc.pdf" = Some (Returns out)
     /\ header_numbers out = [1%nat; 2%nat]
     /\ header_numbers out ≠ seq 1 (length [returning page_quoting_a_header]))
  /\ (half_broken_document "doc.pdf"
      = Returns [returning hello_page; broken_page]
      /\ exists out,
        extract_text_from_pdf half_broken_document "doc.pdf"
        = Some (Returns out)
        /\ out = "Error: An unexpected issue occurred: bad page"
        /\ header_numbers out = []
        /\ header_numbers out
           ≠ seq 1 (length [returning hello_page; broken_page])).
Proof.
  split.
  - split; [reflexivity|]. eexists. split; [vm_compute; reflexivity|].
    split; [vm_compute; reflexivity|]. vm_compute. discriminate.
  - split; [reflexivity|]. eexists. split; [vm_compute; reflexivity|].
    split; [reflexivity|]. split; [vm_compute; reflexivity|].
    vm_compute. discriminate.
Qed.

(** C9, as the code has it. For a document of N pages that opens, whose
    page calls all return and none of whose pages puts a header-shaped
    line under its header, the call returns a text whose header lines are
    exactly those of the pages 1 to N, in this order, whichever of the
    native and the geometric extraction each page used. *)
Theorem one_header_per_page_in_order
    (pdfplumber_open : string -> outcome (list pdf_page)) (pdf_path : string)
    (pages : list pdf_page) (returned : list page) :
  pdfplumber_open pdf_path = Returns pages ->
  Forall2 calls_return pages returned ->
  Forall content_free_of_headers returned ->
  exists out,
    extract_text_from_pdf pdfplumber_open pdf_path = Some (Returns out)
    /\ header_numbers out = seq 1 (length pages).
Proof.
  intros Hopen Hcalls Hfree. unfold extract_text_from_pdf, try_block.
  rewrite Hopen. unfold enumerate.
  rewrite (pages_loop_calls_return pages returned Hcalls).
  destruct (pages_loop_spec returned Hfree 0 EmptyString)
    as (t & Hrun & Ht & Hn); [by left | done |].
  rewrite Hrun. simpl. eexists. split; [done|].
  rewrite (Forall2_length _ _ _ Hcalls).
  destruct Ht as [-> | [Hs He]]; [done|].
  by rewrite header_numbers_strip_framed.
Qed.

Example sample_document_text :
  extract_text_from_pdf sample_document "doc.pdf"
  = Some (Returns
      ("--- Page 1 ---" +:+ nl +:+ "hello" +:+ nl +:+ nl
       +:+ "--- Page 2 ---" +:+ nl +:+ "left" +:+ nl +:+ "right" +:+ nl +:+ nl
       +:+ "--- Page 3 ---" +:+ nl +:+ "[No text found]")).
Proof. vm_compute. reflexivity. Qed.

Lemma sample_pages_free_of_headers :
  Forall content_free_of_headers sample_pages.
Proof.
  unfold sample_pages.
  apply Forall_cons_2; [vm_compute; reflexivity|].
  apply Forall_cons_2.
  { unfold content_free_of_headers.
    change (has_native_text _) with false. cbv iota.
    intros groups Hg. vm_compute in Hg. injection Hg as <-.
    apply Forall_cons_2; [vm_compute; reflexivity|].
    apply Forall_cons_2; [vm_compute; reflexivity|]. apply Forall_nil_2. }
  apply Forall_cons_2; [|apply Forall_nil_2].
  unfold content_free_of_headers.
  change (has_native_text _) with false. cbv iota.
  intros groups Hg. vm_compute in Hg. injection Hg as <-.
  apply Forall_nil_2.
Defined.

Lemma one_header_per_page_in_order_witness :
  sample_document "doc.pdf" = Returns (List.map returning sample_pages)
  /\ Forall2 calls_return (List.map returning sample_pages) sample_pages
  /\ Forall content_free_of_headers sample_pages
  /\ exists out,
    extract_text_from_pdf sample_document "doc.pdf" = Some (Returns out)
    /\ header_numbers out
       = seq 1 (length (List.map returning sample_pages)).
Proof.
  split; [reflexivity|]. split; [exact (Forall2_returning sample_pages)|].
  split; [exact sample_pages_free_of_headers|].
  exact (one_header_per_page_in_order sample_document "doc.pdf"
           (List.map returning sample_pages) sample_pages eq_refl
           (Forall2_returning sample_pages) sample_pages_free_of_headers).
Defined.

(** * Further properties of the orchestrator *)

(** ** Sections are appended *)

Lemma append_group_prefix (t a : string) (group : list word) :
  append_group (t +:+ a) group = t +:+ append_group a group.
Proof.
  unfold append_group.
  destruct (nonempty (strip (join " " (List.map text group))));
    [by rewrite append_assoc | done].
Qed.

Lemma fold_append_group_prefix (groups : list (list word)) (t a : string) :
  fold_left append_group groups (t +:+ a)
  = t +:+ fold_left append_group groups a.
Proof.
  revert a. induction groups as [|g groups IH]; intros a; simpl; [done|].
  by rewrite append_group_prefix, IH.
Qed.

Lemma fallback_section_prefix (t : string) (i : nat)
    (groups : list (list word)) :
  fallback_section t i groups = t +:+ fallback_section EmptyString i groups.
Proof.
  unfold fallback_section. destruct groups as [|g groups]; [done|].
  apply (fold_append_group_prefix (g :: groups) t).
Qed.

Lemma process_page_prefix (t : string) (i : nat) (p : pdf_page) :
  process_page t i p
  = on_return (String.append t) <$> process_page EmptyString i p.
Proof.
  unfold process_page.
  destruct (call_extract_text p) as [text|e]; [|done].
  destruct (has_native_text text); [done|].
  destruct (call_extract_words p) as [words|e]; [|done].
  destruct (extract_structured_text (Page text words) default_threshold)
    as [g|]; [|done].
  simpl. by rewrite fallback_section_prefix.
Qed.

(** X9. The text accumulated so far is never read or changed by the pages
    that follow: running the page loop from a text [t] gives [t] followed
    by what the same pages give from the empty text, and raises what they
    raise from the empty text. *)
Theorem pages_loop_appends_sections (pages : list pdf_page) (k : nat)
    (t : string) :
  pages_loop (enumerate_from k pages) t
  = on_return (String.append t)
      <$> pages_loop (enumerate_from k pages) EmptyString.
Proof.
  revert k t. induction pages as [|p pages IH]; intros k t;
    cbn [enumerate_from].
  - simpl. by rewrite append_nil_r.
  - rewrite !pages_loop_cons, (process_page_prefix t).
    destruct (process_page EmptyString k p) as [[s|e]|]; [|done|done].
    simpl. rewrite (IH (S k) (t +:+ s)), (IH (S k) s).
    destruct (pages_loop (enumerate_from (S k) pages) EmptyString)
      as [[s'|e]|]; [|done|done].
    simpl. by rewrite append_assoc.
Qed.

(** ** Native text *)

Lemma lstrip_head (s : string) :
  whitespace_only s = false ->
  exists c r, lstrip s = String c r /\ isspace c = false.
Proof.
  induction s as [|c s IH]; simpl; [done|].
  destruct (isspace c) eqn:Hc; simpl; [done|]. intros _. by exists c, s.
Qed.

Lemma rstrip_head (c : ascii) (r : string) :
  isspace c = false -> exists r', rstrip (String c r) = String c r'.
Proof.
  intros Hc. simpl. destruct (rstrip r) as [|d r'].
  - rewrite Hc. by exists EmptyString.
  - by exists (String d r').
Qed.

Lemma has_native_text_present (t : string) :
  whitespace_only t = false ->
  has_native_text (Some t) = true /\ strip t ≠ EmptyString.
Proof.
  intros Ht. destruct (lstrip_head t Ht) as (c & r & Hl & Hc).
  destruct (rstrip_head c r Hc) as [r' Hr].
  assert (Hs : strip t = String c r') by (unfold strip; by rewrite Hl).
  split; [|by rewrite Hs].
  unfold has_native_text. rewrite Hs. by destruct t.
Qed.

(** X10. A page whose native text holds a character that is not
    whitespace contributes its header and the trimmed native text; its
    word boxes are not asked for. *)
Theorem native_text_is_the_section (full_text : string) (i : nat)
    (p : pdf_page) (t : string) :
  call_extract_text p = Returns (Some t) ->
  whitespace_only t = false ->
  process_page full_text i p
  = Some (Returns
      (full_text +:+ nl +:+ header_line i +:+ nl +:+ strip t +:+ nl))
  /\ strip t ≠ EmptyString.
Proof.
  intros Hp Ht. destruct (has_native_text_present t Ht) as [Hn Hs].
  split; [|done]. unfold process_page. by rewrite Hp, Hn.
Qed.

Lemma native_text_is_the_section_witness :
  call_extract_text hello_page_without_words = Returns (Some "  hello  ")
  /\ whitespace_only "  hello  " = false
  /\ process_page EmptyString 0 hello_page_without_words
     = Some (Returns
         (EmptyString +:+ nl +:+ header_line 0 +:+ nl
          +:+ strip "  hello  " +:+ nl))
  /\ strip "  hello  " ≠ EmptyString.
Proof.
  split; [reflexivity|]. split; [reflexivity|].
  exact (native_text_is_the_section EmptyString 0 hello_page_without_words
           "  hello  " eq_refl eq_refl).
Defined.

(** ** Groups of blanks *)

Lemma whitespace_only_app (a b : string) :
  whitespace_only (a +:+ b) = whitespace_only a && whitespace_only b.
Proof.
  induction a as [|c a IH]; simpl; [done|]. by rewrite IH, andb_assoc.
Qed.

Lemma join_whitespace_only (l : list string) :
  Forall (fun s => whitespace_only s = true) l ->
  whitespace_only (join " " l) = true.
Proof.
  induction 1 as [|s l Hs Hl IH]; [done|].
  destruct l as [|s' l]; [done|].
  change (join " " (s :: s' :: l)) with (s +:+ " " +:+ join " " (s' :: l)).
  by rewrite !whitespace_only_app, Hs, IH.
Qed.

(** X11. A group all of whose words are whitespace puts no line into the
    text. *)
Theorem blank_group_adds_no_line (full_text : string) (group : list word) :
  Forall (fun w => whitespace_only (text w) = true) group ->
  append_group full_text group = full_text.
Proof.
  intros Hg. unfold append_group.
  rewrite strip_whitespace_only; [done|].
  apply join_whitespace_only. by apply Forall_fmap.
Qed.

Lemma blank_group_adds_no_line_witness :
  Forall (fun w => whitespace_only (text w) = true) [blank_word; blank_word]
  /\ append_group "--- Page 1 ---" [blank_word; blank_word]
     = "--- Page 1 ---".
Proof.
  assert (H : Forall (fun w => whitespace_only (text w) = true)
                [blank_word; blank_word]).
  { apply Forall_cons_2; [reflexivity|].
    apply Forall_cons_2; [reflexivity|]. apply Forall_nil_2. }
  split; [exact H|].
  exact (blank_group_adds_no_line "--- Page 1 ---" [blank_word; blank_word] H).
Defined.

(** ** The returned text, whatever the pages hold *)

Lemma rstrip_idempotent (s : string) : rstrip (rstrip s) = rstrip s.
Proof.
  induction s as [|d s IH]; [done|]. cbn [rstrip].
  destruct (rstrip s) as [|e r] eqn:Hr.
  - destruct (isspace d) eqn:Hd; [done|]. cbn. by rewrite Hd.
  - cbn [rstrip] in *. fold rstrip in *. by rewrite IH.
Qed.

Lemma strip_idempotent (s : string) : strip (strip s) = strip s.
Proof.
  unfold strip. destruct (whitespace_only s) eqn:Hs.
  - rewrite (lstrip_whitespace_only s Hs). reflexivity.
  - destruct (lstrip_head s Hs) as (c & r & -> & Hc).
    destruct (rstrip_head c r Hc) as [r' Hr]. rewrite Hr.
    cbn [lstrip]. rewrite Hc, <- Hr. apply rstrip_idempotent.
Qed.

Lemma append_group_shape (acc : string) (group : list word) :
  ends_tight acc ->
  ends_tight (append_group acc group)
  /\ (exists extra,
        header_numbers (append_group acc group)
        = header_numbers acc ++ extra)
  /\ exists z, append_group acc group = acc +:+ z.
Proof.
  intros Hacc. unfold append_group.
  set (group_text := strip (join " " (List.map text group))).
  destruct (nonempty group_text) eqn:Hne.
  - destruct (strip_ends (join " " (List.map text group)))
      as [Hnil | (x & c & Hx & Hc)];
      fold group_text in Hnil || fold group_text in Hx.
    { rewrite Hnil in Hne. discriminate. }
    split; [|split].
    + apply ends_tight_app. rewrite Hx. by apply ends_tight_line.
    + destruct (ends_tight_ends_nl acc Hacc) as [a ->].
      exists (header_numbers group_text). apply header_numbers_add_line.
    + by exists (group_text +:+ nl).
  - split; [done|]. split.
    + exists []. by rewrite app_nil_r.
    + exists EmptyString. by rewrite append_nil_r.
Qed.

Lemma fold_append_group_shape (groups : list (list word)) (acc : string) :
  ends_tight acc ->
  ends_tight (fold_left append_group groups acc)
  /\ (exists extra,
        header_numbers (fold_left append_group groups acc)
        = header_numbers acc ++ extra)
  /\ exists z, fold_left append_group groups acc = acc +:+ z.
Proof.
  revert acc. induction groups as [|g groups IH]; intros acc Hacc; simpl.
  - split; [done|]. split.
    + exists []. by rewrite app_nil_r.
    + exists EmptyString. by rewrite append_nil_r.
  - destruct (append_group_shape acc g Hacc) as (He & [e1 Hn] & z & Hz).
    destruct (IH (append_group acc g) He) as (He' & [e2 Hn'] & z' & Hz').
    split; [done|]. split.
    + exists (e1 ++ e2). by rewrite Hn', Hn, app_assoc.
    + exists (z +:+ z'). by rewrite Hz', Hz, append_assoc.
Qed.

(** A page whose calls return, whatever they return: it appends its
    header and then lines that end with a newline. *)
Lemma process_page_shape (t : string) (i : nat) (p : page) :
  t = EmptyString \/ starts_with_header t ->
  exists t' extra z,
    process_page t i (returning p) = Some (Returns t')
    /\ starts_with_header t' /\ ends_tight t'
    /\ header_numbers t' = header_numbers t ++ (i + 1)%nat :: extra
    /\ t' = (t +:+ nl +:+ header_line i) +:+ z.
Proof.
  intros Ht.
  destruct (header_appended t i Ht) as (Hs & He & Hn).
  set (base := (t +:+ nl +:+ header_line i) +:+ nl) in *.
  assert (Hline : forall c,
    (exists x ch, c = x +:+ String ch EmptyString /\ isspace ch = false) ->
    starts_with_header (base +:+ c +:+ nl) /\ ends_tight (base +:+ c +:+ nl)
    /\ header_numbers (base +:+ c +:+ nl)
       = header_numbers t ++ (i + 1)%nat :: header_numbers c).
  { intros c (x & ch & Hx & Hch). split; [|split].
    - by apply starts_with_header_app.
    - apply ends_tight_app. rewrite Hx. by apply ends_tight_line.
    - destruct (ends_tight_ends_nl base He) as [a Ha]. rewrite Ha.
      rewrite header_numbers_add_line, <- Ha, Hn, <- app_assoc. done. }
  rewrite process_page_returning.
  destruct (has_native_text (extract_text p)) eqn:Hnat.
  - destruct (extract_text p) as [txt|]; [|discriminate].
    cbn [default].
    apply andb_true_iff in Hnat as [_ Hlen].
    destruct (strip_ends txt) as [Hnil | Htight].
    { rewrite Hnil in Hlen. discriminate. }
    destruct (Hline (strip txt) Htight) as (Hs' & He' & Hn').
    exists (base +:+ strip txt +:+ nl), (header_numbers (strip txt)),
      (nl +:+ strip txt +:+ nl).
    split; [unfold base; by rewrite !append_assoc|].
    do 3 (split; [done|]). unfold base. by rewrite !append_assoc.
  - destruct (extract_structured_text_total p default_threshold) as [g Hg].
    rewrite Hg. simpl. destruct g as [|g0 g].
    + destruct (Hline "[No text found]") as (Hs' & He' & Hn').
      { by exists "[No text found", "]"%char. }
      exists (base +:+ "[No text found]" +:+ nl),
        (header_numbers "[No text found]"),
        (nl +:+ "[No text found]" +:+ nl).
      split; [unfold base, fallback_section; by rewrite !append_assoc|].
      do 3 (split; [done|]). unfold base. by rewrite !append_assoc.
    + destruct (fold_append_group_shape (g0 :: g) base He)
        as (He' & [extra Hn'] & z & Hz).
      exists (fold_left append_group (g0 :: g) base), extra, (nl +:+ z).
      split; [unfold base, fallback_section; by rewrite !append_assoc|].
      split; [rewrite Hz; by apply starts_with_header_app|].
      split; [done|]. split.
      * by rewrite Hn', Hn, <- app_assoc.
      * rewrite Hz. unfold base. by rewrite !append_assoc.
Qed.

Lemma pages_loop_shape (pages : list page) :
  forall (k : nat) (t : string),
    t = EmptyString \/ (starts_with_header t /\ ends_tight t) ->
    sublist (seq 1 k) (header_numbers t) ->
    exists t',
      pages_loop (enumerate_from k (List.map returning pages)) t
      = Some (Returns t')
      /\ ((pages = [] /\ t' = t) \/ (starts_with_header t' /\ ends_tight t'))
      /\ sublist (seq 1 (k + length pages)) (header_numbers t').
Proof.
  induction pages as [|p pages IH]; intros k t Ht Hn;
    cbn [List.map enumerate_from].
  - exists t. rewrite Nat.add_0_r. split; [done|]. split; [by left | done].
  - rewrite pages_loop_cons.
    destruct (process_page_shape t k p)
      as (t1 & extra & z & -> & Hs & He & Hn1 & _).
    { destruct Ht as [->|[Ht _]]; [by left | by right]. }
    simpl. destruct (IH (S k) t1) as (t' & -> & Ht' & Hn').
    + right. done.
    + rewrite Hn1, seq_S. apply sublist_app; [done|].
      replace (1 + k)%nat with (k + 1)%nat by lia.
      apply sublist_skip, sublist_nil_l.
    + exists t'. split; [done|]. split.
      * right. destruct Ht' as [[-> ->] | H]; [done | done].
      * cbn [length].
        replace (k + S (length pages))%nat
          with (S k + length pages)%nat by lia.
        exact Hn'.
Qed.

(** X12. When the document opens and the page calls all return, the text
    returned is trimmed: it neither starts nor ends with whitespace, so
    trimming it again changes nothing. *)
Theorem returned_text_is_trimmed
    (pdfplumber_open : string -> outcome (list pdf_page)) (pdf_path : string)
    (pages : list pdf_page) (returned : list page) :
  pdfplumber_open pdf_path = Returns pages ->
  Forall2 calls_return pages returned ->
  exists out,
    extract_text_from_pdf pdfplumber_open pdf_path = Some (Returns out)
    /\ strip out = out.
Proof.
  intros Hopen Hcalls. unfold extract_text_from_pdf, try_block.
  rewrite Hopen. unfold enumerate.
  rewrite (pages_loop_calls_return pages returned Hcalls).
  destruct (pages_loop_shape returned 0 EmptyString)
    as (t & Hrun & _ & _); [by left | apply sublist_nil_l |].
  rewrite Hrun. simpl. eexists. split; [done|].
  apply strip_idempotent.
Qed.

Lemma returned_text_is_trimmed_witness :
  sample_document "doc.pdf" = Returns (List.map returning sample_pages)
  /\ Forall2 calls_return (List.map returning sample_pages) sample_pages
  /\ exists out,
    extract_text_from_pdf sample_document "doc.pdf" = Some (Returns out)
    /\ strip out = out.
Proof.
  split; [reflexivity|]. split; [exact (Forall2_returning sample_pages)|].
  exact (returned_text_is_trimmed sample_document "doc.pdf"
           (List.map returning sample_pages) sample_pages eq_refl
           (Forall2_returning sample_pages)).
Defined.

(** X13. When the document opens and the page calls all return, the
    header lines of the pages 1 to N all occur in the returned text, in
    ascending order, whatever the calls return; lines of content shaped as
    headers can only come on top of them. *)
Theorem page_headers_occur_in_order
    (pdfplumber_open : string -> outcome (list pdf_page)) (pdf_path : string)
    (pages : list pdf_page) (returned : list page) :
  pdfplumber_open pdf_path = Returns pages ->
  Forall2 calls_return pages returned ->
  exists out,
    extract_text_from_pdf pdfplumber_open pdf_path = Some (Returns out)
    /\ sublist (seq 1 (length pages)) (header_numbers out).
Proof.
  intros Hopen Hcalls. unfold extract_text_from_pdf, try_block.
  rewrite Hopen. unfold enumerate.
  rewrite (pages_loop_calls_return pages returned Hcalls).
  destruct (pages_loop_shape returned 0 EmptyString)
    as (t & Hrun & Ht & Hn); [by left | apply sublist_nil_l |].
  rewrite Hrun. simpl. eexists. split; [done|].
  rewrite (Forall2_length _ _ _ Hcalls).
  destruct Ht as [[-> ->] | [Hs He]]; [apply sublist_nil_l|].
  by rewrite header_numbers_strip_framed.
Qed.

Lemma page_headers_occur_in_order_witness :
  one_page_document "doc.pdf" = Returns [returning page_quoting_a_header]
  /\ Forall2 calls_return [returning page_quoting_a_header]
       [page_quoting_a_header]
  /\ exists out,
    extract_text_from_pdf one_page_document "doc.pdf" = Some (Returns out)
    /\ sublist (seq 1 (length [returning page_quoting_a_header]))
         (header_numbers out).
Proof.
  split; [reflexivity|].
  split; [exact (Forall2_returning [page_quoting_a_header])|].
  exact (page_headers_occur_in_order one_page_document "doc.pdf"
           [returning page_quoting_a_header] [page_quoting_a_header] eq_refl
           (Forall2_returning [page_quoting_a_header])).
Defined.

Lemma pages_loop_extends (todo : list (nat * pdf_page)) :
  forall t t',
    pages_loop todo t = Some (Returns t') -> exists z, t' = t +:+ z.
Proof.
  induction todo as [|[i p] todo IH]; intros t t' Hrun.
  - injection Hrun as <-. exists EmptyString. by rewrite append_nil_r.
  - rewrite pages_loop_cons, process_page_prefix in Hrun.
    destruct (process_page EmptyString i p) as [[s|e]|];
      [|discriminate|discriminate].
    simpl in Hrun. destruct (IH _ _ Hrun) as [z ->].
    exists (s +:+ z). by rewrite append_assoc.
Qed.

Lemma prefix_before_final_newline (pre x zz : string) :
  no_newline pre = true -> x +:+ nl = pre +:+ zz ->
  exists r, x = pre +:+ r.
Proof.
  revert x. induction pre as [|c pre IH]; intros x Hpre Heq.
  - by exists x.
  - simpl in Hpre. apply andb_true_iff in Hpre as [Hc Hpre].
    destruct x as [|d x]; simpl in Heq.
    + injection Heq as <- _. by rewrite Ascii.eqb_refl in Hc.
    + injection Heq as -> Heq. destruct (IH x Hpre Heq) as [r ->].
      by exists r.
Qed.

(** The text after a run of the page loop over at least one page, all of
    whose calls return: its trimmed form begins with the header of page
    1. *)
Lemma first_header_opens_the_text (p : page) (ps : list page) :
  exists t,
    pages_loop (enumerate_from 0 (List.map returning (p :: ps))) EmptyString
    = Some (Returns t)
    /\ exists rest, strip t = "--- Page 1 ---" +:+ rest.
Proof.
  cbn [List.map enumerate_from]. rewrite pages_loop_cons.
  destruct (process_page_shape EmptyString 0 p)
    as (t1 & extra & z & -> & Hs & He & Hn & Ht1); [by left|].
  simpl.
  destruct (pages_loop_shape ps 1 t1) as (t' & Hrun & Ht' & _).
  { by right. }
  { rewrite Hn. apply sublist_skip, sublist_nil_l. }
  exists t'. split; [done|].
  assert (Hshape : starts_with_header t' /\ ends_tight t').
  { destruct Ht' as [[_ ->] | H]; done. }
  destruct Hshape as [Hs' He'].
  destruct (pages_loop_extends _ _ _ Hrun) as [z' Hz'].
  pose proof (strip_framed t' Hs' He') as Hframe.
  rewrite Hz', Ht1 in Hframe at 1.
  rewrite !append_assoc in Hframe. simpl in Hframe.
  injection Hframe as Hframe.
  apply (prefix_before_final_newline "--- Page 1 ---" (strip t') (z +:+ z'));
    [reflexivity|]. by rewrite <- Hframe.
Qed.

(** X14. When a document with at least one page opens and the page calls
    all return, the returned text begins with the header of page 1,
    whatever the calls return. *)
Theorem returned_text_begins_with_first_header
    (pdfplumber_open : string -> outcome (list pdf_page)) (pdf_path : string)
    (p : pdf_page) (pages : list pdf_page) (returned : list page) :
  pdfplumber_open pdf_path = Returns (p :: pages) ->
  Forall2 calls_return (p :: pages) returned ->
  exists out rest,
    extract_text_from_pdf pdfplumber_open pdf_path = Some (Returns out)
    /\ out = "--- Page 1 ---" +:+ rest.
Proof.
  intros Hopen Hcalls. unfold extract_text_from_pdf, try_block.
  rewrite Hopen. unfold enumerate.
  rewrite (pages_loop_calls_return _ _ Hcalls).
  destruct returned as [|r0 rs]; [by apply Forall2_length in Hcalls|].
  destruct (first_header_opens_the_text r0 rs) as (t & Hrun & rest & Hrest).
  rewrite Hrun. simpl. by exists (strip t), rest.
Qed.

Lemma returned_text_begins_with_first_header_witness :
  hello_document "doc.pdf"
  = Returns (returning hello_page :: List.map returning sample_pages)
  /\ Forall2 calls_return
       (returning hello_page :: List.map returning sample_pages)
       (hello_page :: sample_pages)
  /\ exists out rest,
    extract_text_from_pdf hello_document "doc.pdf" = Some (Returns out)
    /\ out = "--- Page 1 ---" +:+ rest.
Proof.
  split; [reflexivity|].
  split; [exact (Forall2_returning (hello_page :: sample_pages))|].
  exact (returned_text_begins_with_first_header hello_document "doc.pdf"
           (returning hello_page) (List.map returning sample_pages)
           (hello_page :: sample_pages) eq_refl
           (Forall2_returning (hello_page :: sample_pages))).
Defined.

(** ** Telling failure from success *)

Lemma process_page_total (t : string) (i : nat) (p : pdf_page) :
  exists r, process_page t i p = Some r.
Proof.
  unfold process_page.
  destruct (call_extract_text p) as [text|e]; [|by eexists].
  destruct (has_native_text text); [by eexists|].
  destruct (call_extract_words p) as [words|e]; [|by eexists].
  destruct (extract_structured_text_total (Page text words)
              default_threshold) as [g ->].
  by eexists.
Qed.

Lemma pages_loop_total (todo : list (nat * pdf_page)) :
  forall t, exists r, pages_loop todo t = Some r.
Proof.
  induction todo as [|[i p] todo IH]; intros t; [by eexists|].
  rewrite pages_loop_cons.
  destruct (process_page_total t i p) as [[t'|e] ->]; simpl;
    [apply IH | by eexists].
Qed.

(** A text that the [try] block returns does not begin with
    ["Error: "]. *)
Lemma returned_text_is_no_error (pages : list pdf_page) (t : string) :
  pages_loop (enumerate pages) EmptyString = Some (Returns t) ->
  ~ exists s, strip t = "Error: " +:+ s.
Proof.
  intros Hrun [s Hs].
  destruct (pages_loop_returns_calls pages 0 _ _ Hrun) as [ps Hps].
  unfold enumerate in Hrun.
  rewrite (pages_loop_calls_return pages ps Hps) in Hrun.
  destruct ps as [|p ps].
  - simpl in Hrun. injection Hrun as <-. discriminate.
  - destruct (first_header_opens_the_text p ps) as (t' & Hrun' & rest & Hrest).
    rewrite Hrun in Hrun'. injection Hrun' as <-.
    rewrite Hs in Hrest. discriminate.
Qed.

(** X15. The call returns a string that begins with ["Error: "] exactly
    when an exception of class [Exception] left the [try] block, raised by
    the opening of the document or by a call on a page; a text that the
    [try] block returns is handed on as it is and does not begin with
    ["Error: "]; an exception outside class [Exception] goes on to the
    caller. *)
Theorem error_prefix_iff_exception_caught
    (pdfplumber_open : string -> outcome (list pdf_page))
    (pdf_path : string) :
  exists r,
    try_block pdfplumber_open pdf_path = Some r
    /\ match r with
       | Returns out =>
           extract_text_from_pdf pdfplumber_open pdf_path
           = Some (Returns out)
           /\ ~ (exists s, out = "Error: " +:+ s)
       | Raises NotAnException =>
           extract_text_from_pdf pdfplumber_open pdf_path
           = Some (Raises NotAnException)
       | Raises _ =>
           exists s,
             extract_text_from_pdf pdfplumber_open pdf_path
             = Some (Returns ("Error: " +:+ s))
       end.
Proof.
  unfold extract_text_from_pdf, try_block.
  destruct (pdfplumber_open pdf_path) as [pages | e].
  - destruct (pages_loop_total (enumerate pages) EmptyString) as [r Hr].
    rewrite Hr. simpl. destruct r as [t | e].
    + eexists. split; [done|]. simpl. split; [done|].
      by apply (returned_text_is_no_error pages).
    + eexists. split; [done|]. destruct e; simpl; [by eexists | by eexists | done].
  - eexists. split; [done|]. destruct e; simpl; [by eexists | by eexists | done].
Qed.

(** ** Pages without native text *)

(** X16. For a page without usable native text the marker
    [[No text found]] is written when the word extraction returns no word
    box; when it returns one, groups are returned and the section is the
    header followed by the lines of these groups. *)
Theorem marker_only_for_pages_without_words (full_text : string) (i : nat)
    (p : pdf_page) (text : option string) (words : list word) :
  call_extract_text p = Returns text ->
  has_native_text text = false ->
  call_extract_words p = Returns words ->
  (words = [] ->
   process_page full_text i p
   = Some (Returns (full_text +:+ nl +:+ header_line i +:+ nl
                    +:+ "[No text found]" +:+ nl)))
  /\ (words ≠ [] ->
      exists groups,
        groups ≠ []
        /\ extract_structured_text (Page text words) default_threshold
           = Some groups
        /\ process_page full_text i p
           = Some (Returns (fold_left append_group groups
                              (full_text +:+ nl +:+ header_line i +:+ nl)))).
Proof.
  intros Ht Hnat Hw. unfold process_page. rewrite Ht, Hnat, Hw. split.
  - intros ->. reflexivity.
  - intros Hne.
    destruct (extract_structured_text_spec (Page text words)
                default_threshold) as (g & Hg & _ & Hperm).
    exists g. rewrite Hg. simpl.
    assert (Hg' : g ≠ []).
    { intros ->. simpl in Hperm. by apply Permutation_nil in Hperm. }
    split; [done|]. split; [done|]. by destruct g.
Qed.

Lemma marker_only_for_pages_without_words_witness :
  call_extract_text (returning three_spaces_page) = Returns (Some "   ")
  /\ has_native_text (Some "   ") = false
  /\ call_extract_words (returning three_spaces_page)
     = Returns [row_left; row_right]
  /\ ([row_left; row_right] = [] ->
      process_page EmptyString 0 (returning three_spaces_page)
      = Some (Returns (EmptyString +:+ nl +:+ header_line 0 +:+ nl
                       +:+ "[No text found]" +:+ nl)))
  /\ ([row_left; row_right] ≠ [] ->
      exists groups,
        groups ≠ []
        /\ extract_structured_text
             (Page (Some "   ") [row_left; row_right]) default_threshold
           = Some groups
        /\ process_page EmptyString 0 (returning three_spaces_page)
           = Some (Returns (fold_left append_group groups
                              (EmptyString +:+ nl +:+ header_line 0 +:+ nl)))).
Proof.
  split; [reflexivity|]. split; [reflexivity|]. split; [reflexivity|].
  exact (marker_only_for_pages_without_words EmptyString 0
           (returning three_spaces_page) (Some "   ")
           [row_left; row_right] eq_refl eq_refl eq_refl).
Defined.
